(** * Stock analysis: a shallow embedding of [stockAnalyzisBulk]

    Source: [server/src/Orders/Services/stockAnalyzis.ts].

    Modelling conventions.
    - Stock quantities and counters are integers ([Z]): the model covers
      the inputs whose stock is an integer and whose sums and differences
      stay within [-2^53, 2^53], where the arithmetic of JavaScript numbers
      is exact.  Comparisons behave the same on every number; the
      theorems that rest on exact sums carry the bound as a hypothesis.
    - The two ratios ([average], [enoughForMonths]) are not integers: they
      are the exact rational values of the binary64 numbers the code
      computes, each division being rounded to the nearest binary64 number
      ([binary64]).
    - A string is the sequence of its code units, each an [ascii] (code
      units below 256); the default [Array.prototype.sort] order is the
      lexicographic order of the code units, [String.leb].
    - A plain JavaScript object used as a dictionary is the list of its own
      properties in insertion order ([JsObject.t]); [Object.keys] and
      [Object.values] enumerate array-index keys first, in ascending numeric
      order, then the other keys in insertion order.  A property read also
      sees the members inherited from [Object.prototype]
      ([JsObject.inherited]), and an assignment to ["__proto__"] sets the
      prototype instead of adding a key.
    - A [Set] is the duplicate-free list of its elements in insertion order.
    - The awaited [Order.find()] is an input of the function: it rejects,
      resolves to [null], or resolves to a list of documents, whose rows
      may hold [null] where a row object is expected. *)

From Stdlib Require Import List ZArith QArith Lia Bool Ascii String.
From Stdlib Require Import Permutation Sorted.
Import ListNotations.

Local Open Scope Z_scope.

(** ** Generic helpers *)

(** Insertion sort for a boolean order; the lists sorted below carry
    pairwise distinct keys, so the result does not depend on the sorting
    algorithm of the engine. *)
Fixpoint insert_sorted {A : Type} (leb : A -> A -> bool) (x : A) (l : list A) : list A :=
  match l with
  | [] => [x]
  | y :: l' => if leb x y then x :: l else y :: insert_sorted leb x l'
  end.

Fixpoint sort_by {A : Type} (leb : A -> A -> bool) (l : list A) : list A :=
  match l with
  | [] => []
  | x :: l' => insert_sorted leb x (sort_by leb l')
  end.

Definition sumZ (l : list Z) : Z := fold_right Z.add 0 l.

(** ** Plain objects used as dictionaries *)

Module JsObject.

Definition t (V : Type) : Type := list (string * V).

Definition empty {V : Type} : t V := [].

(** [o[k]]: the own property [k], if any. *)
Fixpoint get {V : Type} (o : t V) (k : string) : option V :=
  match o with
  | [] => None
  | (k', v) :: o' => if String.eqb k' k then Some v else get o' k
  end.

(** [o[k] = v]: an existing property keeps its position, a new one is
    appended. *)
Fixpoint set {V : Type} (o : t V) (k : string) (v : V) : t V :=
  match o with
  | [] => [(k, v)]
  | (k', v') :: o' =>
      if String.eqb k' k then (k', v) :: o' else (k', v') :: set o' k v
  end.

(** The names of the members every plain object inherits from
    [Object.prototype]; each of them reads as a truthy value (a function,
    or the prototype itself for ["__proto__"]). *)
Definition prototype_members : list string :=
  ["constructor"; "hasOwnProperty"; "isPrototypeOf"; "propertyIsEnumerable";
   "toLocaleString"; "toString"; "valueOf"; "__defineGetter__";
   "__defineSetter__"; "__lookupGetter__"; "__lookupSetter__"; "__proto__"]%string.

Definition inherited (k : string) : bool :=
  existsb (String.eqb k) prototype_members.

Definition is_digit (c : ascii) : bool :=
  let n := N_of_ascii c in (48 <=? n)%N && (n <=? 57)%N.

Fixpoint digits_value (acc : N) (s : string) : option N :=
  match s with
  | EmptyString => Some acc
  | String c s' =>
      if is_digit c
      then digits_value (10 * acc + (N_of_ascii c - 48))%N s'
      else None
  end.

(** A key is an array index when it is the canonical decimal form of an
    integer below [2^32 - 1]. *)
Definition array_index (k : string) : option N :=
  match k with
  | EmptyString => None
  | String c rest =>
      if Ascii.eqb c "0" && negb (String.eqb rest EmptyString) then None
      else match digits_value 0 k with
           | Some n => if (n <? 4294967295)%N then Some n else None
           | None => None
           end
  end.

Definition is_array_index (k : string) : bool :=
  match array_index k with Some _ => true | None => false end.

Definition index_of (k : string) : N :=
  match array_index k with Some n => n | None => 0%N end.

(** Own enumerable properties in the order of [Object.keys]. *)
Definition entries {V : Type} (o : t V) : list (string * V) :=
  sort_by (fun a b => (index_of (fst a) <=? index_of (fst b))%N)
          (filter (fun kv => is_array_index (fst kv)) o)
  ++ filter (fun kv => negb (is_array_index (fst kv))) o.

Definition keys {V : Type} (o : t V) : list string := map fst (entries o).

Definition values {V : Type} (o : t V) : list V := map snd (entries o).

End JsObject.

(** ** Sets of strings *)

Module JsSet.

Definition t : Type := list string.

Definition has (s : t) (x : string) : bool := existsb (String.eqb x) s.

Definition add (s : t) (x : string) : t := if has s x then s else s ++ [x].

End JsSet.

(** ** Data *)

(** Modelled from the spec: the order model ([../Model/orderModel]) is not
    among the sources.  A raw product row has a product id, a product name
    and the stock recorded for the month, the three fields the function
    reads. *)
Module Row.
Record t : Type := mk {
  productId : string;
  productName : string;
  stockStatus : Z
}.
End Row.

(** Modelled from the spec: an order of the same missing model is one
    month, with its name and its rows.  [rows = None] stands for a value
    that is not an array. *)
Module Order.
Record t : Type := mk {
  name : string;
  rows : option (list Row.t)
}.
End Order.

(** Modelled from the spec: a document as the query of the same missing
    model returns it, before anything is known about its rows: where a row
    object is expected there may be [null] ([None]), on which reading a
    property throws.  An order is a document all of whose rows are row
    objects. *)
Module Document.
Record t : Type := mk {
  name : string;
  rows : option (list (option Row.t))
}.
End Document.

Definition document_of (order : Order.t) : Document.t :=
  Document.mk (Order.name order) (option_map (map Some) (Order.rows order)).

(** [interface Product]. *)
Module Product.
Record t : Type := mk {
  productId : string;
  productName : string;
  stockStatus : Z;
  leftOver : Z;
  availability : string;
  average : Q;
  totalSales : Z;
  months : Z;
  enoughForMonths : Q
}.

Definition add_stockStatus (p : t) (d : Z) : t :=
  mk (productId p) (productName p) (stockStatus p + d) (leftOver p)
     (availability p) (average p) (totalSales p) (months p)
     (enoughForMonths p).
End Product.

(** ** Numbers *)

(** The integer nearest to [num / den], halves to the even one
    ([0 <= num], [0 < den]). *)
Definition round_half_even (num den : Z) : Z :=
  let q := num / den in
  let r := num mod den in
  match 2 * r ?= den with
  | Lt => q
  | Gt => q + 1
  | Eq => if Z.even q then q else q + 1
  end.

(** The binary64 number nearest to [a / b] ([0 < a], [0 < b]): a
    significand of 53 bits, or less at the smallest exponent, rounded
    half to even.  Values past the largest binary64 number are outside the
    model. *)
Definition binary64_pos (a b : Z) : Q :=
  let e0 := Z.log2 a - Z.log2 b - 52 in
  let below :=
    if 0 <=? e0 then a <? b * 2 ^ e0 * 2 ^ 52
    else a * 2 ^ (- e0) <? b * 2 ^ 52 in
  let e := Z.max (if below then e0 - 1 else e0) (-1074) in
  if 0 <=? e
  then inject_Z (round_half_even a (b * 2 ^ e) * 2 ^ e)
  else Qred (round_half_even (a * 2 ^ (- e)) b # Z.to_pos (2 ^ (- e))).

(** The value of the JavaScript number nearest to [x]: what an arithmetic
    operation returns whose exact result is [x]. *)
Definition binary64 (x : Q) : Q :=
  match Qnum x with
  | Z0 => 0%Q
  | Zpos a => binary64_pos (Zpos a) (Zpos (Qden x))
  | Zneg a => Qopp (binary64_pos (Zpos a) (Zpos (Qden x)))
  end.

(** The integer nearest to [q], halves away from zero: the choice
    [Number.prototype.toFixed] makes on the exact value of its number. *)
Definition round_half_away (q : Q) : Z :=
  let n := Qnum q in
  let d := Zpos (Qden q) in
  Z.sgn n * ((2 * Z.abs n + d) / (2 * d)).

Definition Qgtb (a b : Q) : bool := negb (Qle_bool a b).

(** [parseFloat(x.toFixed(2))] for a number [x]: the two-decimal numeral
    nearest to [x], read back as a number. *)
Definition toFixed2 (x : Q) : Q :=
  binary64 (round_half_away (x * inject_Z 100) # 100).

(** ** Step 1: consolidation *)

(** The body of the loop over the rows of one order. *)
Definition consolidate_row (consolidatedStocks : JsObject.t Product.t)
    (product : Row.t) : JsObject.t Product.t :=
  let productId := Row.productId product in
  match JsObject.get consolidatedStocks productId with
  | Some existing =>
      JsObject.set consolidatedStocks productId
        (Product.add_stockStatus existing (Row.stockStatus product))
  | None =>
      if JsObject.inherited productId then
        (* [consolidatedStocks[productId]] is the inherited member, which
           is truthy: the [+=] lands on that member and no record is
           created *)
        consolidatedStocks
      else
        JsObject.set consolidatedStocks productId
          (Product.mk (Row.productId product) (Row.productName product)
             (Row.stockStatus product) 0 "Unknown" 0%Q 0 0 0%Q)
  end.

Definition consolidatedStocks_of (rows : list Row.t) : JsObject.t Product.t :=
  fold_left consolidate_row rows JsObject.empty.

(** [Array.isArray(order.rows) ? order.rows : []]. *)
Definition rows_of (order : Order.t) : list Row.t :=
  match Order.rows order with
  | Some rows => rows
  | None => []
  end.

(** The consolidated records of one order. *)
Definition consolidate (order : Order.t) : list Product.t :=
  JsObject.values (consolidatedStocks_of (rows_of order)).

(** [monthlyConsolidatedData[name] = records]: for the name
    ["__proto__"] the assignment sets the prototype of the object and adds
    no key. *)
Definition store_month (data : JsObject.t (list Product.t)) (name : string)
    (records : list Product.t) : JsObject.t (list Product.t) :=
  if String.eqb name "__proto__" then data
  else JsObject.set data name records.

(** The loop over the orders: month name to consolidated records. *)
Definition monthlyConsolidatedData_of (orders : list Order.t)
    : JsObject.t (list Product.t) :=
  fold_left
    (fun data order => store_month data (Order.name order) (consolidate order))
    orders JsObject.empty.

(** ** Step 2: statistics per product *)

(** All product ids across all months. *)
Definition productIds_of (data : JsObject.t (list Product.t)) : JsSet.t :=
  fold_left
    (fun ids monthData =>
       fold_left (fun ids product => JsSet.add ids (Product.productId product))
                 monthData ids)
    (JsObject.values data) [].

(** [Object.keys(monthlyConsolidatedData).sort()]: ascending in the
    lexicographic order of the code units. *)
Definition monthKeys_of (data : JsObject.t (list Product.t)) : list string :=
  sort_by String.leb (JsObject.keys data).

(** [monthlyConsolidatedData[monthKey]]; every key passed below is an own
    key of the object (lemma [month_data_own_key]), so the default is never
    reached. *)
Definition month_data (data : JsObject.t (list Product.t)) (monthKey : string)
    : list Product.t :=
  match JsObject.get data monthKey with
  | Some monthData => monthData
  | None => []
  end.

(** [monthData.find((p) => p.productId === productId)]. *)
Definition find_product (monthData : list Product.t) (productId : string)
    : option Product.t :=
  find (fun p => String.eqb (Product.productId p) productId) monthData.

(** The maximum stock over the months in which the product appears,
    starting from 0. *)
Definition initialStock_of (data : JsObject.t (list Product.t))
    (monthKeys : list string) (productId : string) : Z :=
  fold_left
    (fun initialStock monthKey =>
       match find_product (month_data data monthKey) productId with
       | Some product =>
           if Product.stockStatus product >? initialStock
           then Product.stockStatus product
           else initialStock
       | None => initialStock
       end)
    monthKeys 0.

(** The variables the second loop updates. *)
Record locals : Type := mkLocals {
  totalSales : Z;
  leftOver : Z;
  validMonths : Z;
  previousStock : Z
}.

Definition set_leftOver_if_last (monthKeys : list string) (i : nat)
    (stock : Z) (st : locals) : locals :=
  if Z.of_nat i =? Z.of_nat (List.length monthKeys) - 1
  then mkLocals (totalSales st) stock (validMonths st) (previousStock st)
  else st.

(** One iteration of [for (let i = 0; i < monthKeys.length; i++)]. *)
Definition walk_body (data : JsObject.t (list Product.t))
    (monthKeys : list string) (productId : string) (initialStock : Z)
    (st : locals) (i : nat) : locals :=
  let monthData := month_data data (nth i monthKeys EmptyString) in
  match find_product monthData productId with
  | Some product =>
      if (i =? 0)%nat then
        set_leftOver_if_last monthKeys i (Product.stockStatus product)
          (mkLocals (totalSales st) (leftOver st) (validMonths st) initialStock)
      else
        let sales := previousStock st - Product.stockStatus product in
        if sales >? 0 then
          set_leftOver_if_last monthKeys i (Product.stockStatus product)
            (mkLocals (totalSales st + sales) (leftOver st)
               (validMonths st + 1) (Product.stockStatus product))
        else
          (* continue *)
          mkLocals (totalSales st) (leftOver st) (validMonths st)
            (Product.stockStatus product)
  | None => st
  end.

Definition walk (data : JsObject.t (list Product.t))
    (monthKeys : list string) (productId : string) (initialStock : Z) : locals :=
  fold_left (walk_body data monthKeys productId initialStock)
    (seq 0 (List.length monthKeys)) (mkLocals 0 0 0 0).

(** The record pushed for one product id. *)
Definition analyze (data : JsObject.t (list Product.t)) (productId : string)
    : Product.t :=
  let monthKeys := monthKeys_of data in
  let initialStock := initialStock_of data monthKeys productId in
  let st := walk data monthKeys productId initialStock in
  let availability :=
    if leftOver st >? 0 then "Available"%string else "Out of Stock"%string in
  let average :=
    if validMonths st >? 0
    then toFixed2 (binary64 (inject_Z (totalSales st) / inject_Z (validMonths st)))
    else 0%Q in
  let enoughForMonths :=
    if Qgtb average 0
    then toFixed2 (binary64 (inject_Z (leftOver st) / average))
    else 0%Q in
  (* [monthKeys[0]] exists whenever a product is analysed: lemma
     [productIds_months]. *)
  let productName :=
    match find_product (month_data data (nth 0 monthKeys EmptyString)) productId with
    | Some product => Product.productName product
    | None => EmptyString
    end in
  Product.mk productId productName initialStock (leftOver st) availability
    average (totalSales st) (validMonths st) enoughForMonths.

(** The body of the function on orders, after the guard: what it returns
    when every row is a row object (lemma [try_body_orders]). *)
Definition finalStockStatus_of (orders : list Order.t) : list Product.t :=
  let data := monthlyConsolidatedData_of orders in
  map (analyze data) (productIds_of data).

(** ** The exported function *)

(** What the body of the [try] can throw. *)
Inductive thrown : Type :=
| Rejection (reason : string)
| TypeError (property : string).

(** A computation of the body: a value, or what it throws. *)
Definition attempt (A : Type) : Type := (thrown + A)%type.

Definition bind {A B : Type} (m : attempt A) (f : A -> attempt B) : attempt B :=
  match m with
  | inl error => inl error
  | inr a => f a
  end.

Notation "x <- m ;; k" := (bind m (fun x => k))
  (at level 61, m at next level, right associativity).

(** [Array.isArray(order.rows) ? order.rows : []] on a document. *)
Definition rows_of_document (document : Document.t) : list (option Row.t) :=
  match Document.rows document with
  | Some rows => rows
  | None => []
  end.

(** The loop over the rows of a document: [product.productId] throws on
    [null]. *)
Definition consolidate_document (document : Document.t)
    : attempt (list Product.t) :=
  consolidatedStocks <-
    fold_left
      (fun acc product =>
         consolidatedStocks <- acc ;;
         match product with
         | Some row => inr (consolidate_row consolidatedStocks row)
         | None => inl (TypeError "productId")
         end)
      (rows_of_document document) (inr JsObject.empty) ;;
  inr (JsObject.values consolidatedStocks).

(** The loop over the documents. *)
Definition monthlyConsolidatedData_try (documents : list Document.t)
    : attempt (JsObject.t (list Product.t)) :=
  fold_left
    (fun acc document =>
       data <- acc ;;
       records <- consolidate_document document ;;
       inr (store_month data (Document.name document) records))
    documents (inr JsObject.empty).

(** Modelled from the spec: what the awaited [Order.find().select(...)] of
    the missing order model produced; the query fails, resolves to [null],
    or resolves to the list of documents. *)
Inductive find_result : Type :=
| FindRejected (reason : string)
| FindNull
| FindDocuments (documents : list Document.t).

(** The query resolves to orders: documents whose rows are row objects. *)
Definition FindOrders (orders : list Order.t) : find_result :=
  FindDocuments (map document_of orders).

(** The body of the [try]. *)
Definition try_body (found : find_result) : attempt (list Product.t) :=
  match found with
  | FindRejected reason => inl (Rejection reason)
  | FindNull => inr []
  | FindDocuments documents =>
      if (List.length documents =? 0)%nat then inr []
      else
        data <- monthlyConsolidatedData_try documents ;;
        inr (map (analyze data) (productIds_of data))
  end.

(** How the promise returned by the function settles. *)
Inductive settled (A : Type) : Type :=
| Returned (value : A)
| Thrown (message : string).
Arguments Returned {A} value.
Arguments Thrown {A} message.

(** A call of [console.error]. *)
Inductive console_entry : Type :=
| ConsoleError (label : string) (error : thrown).

Definition stockAnalyzisBulk (found : find_result)
    : list console_entry * settled (list Product.t) :=
  match try_body found with
  | inr finalStockStatus => ([], Returned finalStockStatus)
  | inl error =>
      ([ConsoleError "Error while consolidating stock data:" error],
       Thrown "Error While searching data")
  end.

(** ** Views used to state the properties *)

(** The consolidated stock of a product in a month, if it is present. *)
Definition stock_in (data : JsObject.t (list Product.t)) (productId : string)
    (monthKey : string) : option Z :=
  option_map Product.stockStatus
    (find_product (month_data data monthKey) productId).

(** The stock of a product month by month, in chronological order. *)
Definition series_of (data : JsObject.t (list Product.t)) (productId : string)
    : list (option Z) :=
  map (stock_in data productId) (monthKeys_of data).

(** The total stock of the rows that carry a given product id. *)
Definition rows_stock (productId : string) (rows : list Row.t) : Z :=
  sumZ (map Row.stockStatus
          (filter (fun r => String.eqb (Row.productId r) productId) rows)).

(** The first row that carries a given product id. *)
Definition first_row (productId : string) (rows : list Row.t) : option Row.t :=
  find (fun r => String.eqb (Row.productId r) productId) rows.



(** The record consolidation holds for a product id after the given rows. *)
Definition consolidated_record (productId : string) (rows : list Row.t)
    : option Product.t :=
  if JsObject.inherited productId then None
  else
    match first_row productId rows with
    | Some r =>
        Some (Product.mk productId (Row.productName r)
                (rows_stock productId rows) 0 "Unknown" 0%Q 0 0 0%Q)
    | None => None
    end.

(** Every pair of neighbours of [l] is related by [R]. *)
Fixpoint neighbours (R : Z -> Z -> Prop) (l : list Z) : Prop :=
  match l with
  | a :: (b :: _) as rest => R a b /\ neighbours R rest
  | _ => True
  end.

(** The sales walk in the words of the specification, over the stock of a
    product month by month: [baseline] is the previous stock at index 0;
    every later month in which the product is present is compared with the
    previous stock and becomes the new previous stock, and counts as a
    sales month when the difference is positive; a month in which the
    product is absent changes nothing.  The result is
    [(totalSales, validMonths, previousStock)]. *)
Definition spec_walk_step (st : Z * Z * Z) (month : option Z) : Z * Z * Z :=
  let '(totalSales, validMonths, previousStock) := st in
  match month with
  | Some currentStock =>
      let sales := previousStock - currentStock in
      if sales >? 0
      then (totalSales + sales, validMonths + 1, currentStock)
      else (totalSales, validMonths, currentStock)
  | None => st
  end.

Definition spec_walk (baseline : Z) (series : list (option Z)) : Z * Z * Z :=
  fold_left spec_walk_step (tl series) (0, 0, baseline).

(** What the second loop leaves for the comparison with [spec_walk]. *)
Definition walk_view (st : locals) : Z * Z * Z :=
  (totalSales st, validMonths st, previousStock st).

(** The previous stock the source holds after index 0. *)
Definition baseline_of (initialStock : Z) (series : list (option Z)) : Z :=
  match series with
  | Some _ :: _ => initialStock
  | _ => 0
  end.

(** The order is the last one of the input that carries its month name:
    the one whose records the month holds. *)
Definition last_with_name (orders : list Order.t) (order : Order.t) : Prop :=
  find (fun o => String.eqb (Order.name o) (Order.name order)) (rev orders)
  = Some order.

(** The stocks of the months in which the product is present. *)
Definition present_stocks (series : list (option Z)) : list Z :=
  flat_map (fun month => match month with Some s => [s] | None => [] end)
           series.

(** ** Sample series *)

Definition row (productId : string) (stockStatus : Z) : Row.t :=
  Row.mk productId EmptyString stockStatus.

Definition month (name : string) (rows : list Row.t) : Order.t :=
  Order.mk name (Some rows).

(** Stock 100, 60, 60: a sale, then a flat last month. *)
Definition flat_end_series : list Order.t :=
  [month "2024-01" [row "A" 100];
   month "2024-02" [row "A" 60];
   month "2024-03" [row "A" 60]].

(** Stock 50, 80: a restock in the last month. *)
Definition restock_end_series : list Order.t :=
  [month "2024-01" [row "A" 50];
   month "2024-02" [row "A" 80]].



(** Stock 7, 6, 5, 4: a decrease every month. *)
Definition falling_series : list Order.t :=
  [month "2024-01" [row "A" 7];
   month "2024-02" [row "A" 6];
   month "2024-03" [row "A" 5];
   month "2024-04" [row "A" 4]].

(** Product A is absent from the first month, then has stock 30, 50, 10. *)
Definition late_product_series : list Order.t :=
  [month "2024-01" [row "B" 5];
   month "2024-02" [row "A" 30];
   month "2024-03" [row "A" 50];
   month "2024-04" [row "A" 10]].

(** Stock 9, 8, 7 in three orders, the last two under one month name. *)
Definition repeated_name_series : list Order.t :=
  [month "2024-01" [row "A" 9];
   month "2024-02" [row "A" 8];
   month "2024-02" [row "A" 7]].


(** * Properties *)

(** ** Sorting *)

Section Sorting.
Context {A : Type} (leb : A -> A -> bool).

Lemma insert_sorted_perm (x : A) (l : list A) :
  Permutation (insert_sorted leb x l) (x :: l).
Proof.
  induction l as [|y l IH]; simpl.
  - apply Permutation_refl.
  - destruct (leb x y).
    + apply Permutation_refl.
    + apply perm_trans with (y :: x :: l).
      * apply perm_skip, IH.
      * apply perm_swap.
Qed.

Lemma sort_by_perm (l : list A) : Permutation (sort_by leb l) l.
Proof.
  induction l as [|x l IH]; simpl.
  - apply perm_nil.
  - eapply perm_trans; [apply insert_sorted_perm|].
    apply perm_skip, IH.
Qed.

Hypothesis leb_total : forall a b, leb a b = true \/ leb b a = true.

Lemma insert_sorted_sorted (x : A) (l : list A) :
  Sorted (fun a b => leb a b = true) l ->
  Sorted (fun a b => leb a b = true) (insert_sorted leb x l).
Proof.
  induction l as [|y l IH]; simpl; intros Hs.
  - repeat constructor.
  - destruct (leb x y) eqn:E.
    + constructor; [exact Hs | constructor; exact E].
    + inversion Hs as [|? ? Hl Hhd]; subst.
      constructor; [apply IH; exact Hl|].
      destruct l as [|z l]; simpl.
      * constructor. destruct (leb_total x y) as [H|H]; congruence.
      * inversion Hhd; subst.
        destruct (leb x z); constructor; auto.
        destruct (leb_total x y) as [H|H]; congruence.
Qed.

Lemma sort_by_sorted (l : list A) :
  Sorted (fun a b => leb a b = true) (sort_by leb l).
Proof.
  induction l as [|x l IH]; simpl.
  - constructor.
  - apply insert_sorted_sorted, IH.
Qed.
End Sorting.

Lemma partition_perm {A : Type} (f : A -> bool) (l : list A) :
  Permutation (filter f l ++ filter (fun x => negb (f x)) l) l.
Proof.
  induction l as [|x l IH]; simpl.
  - apply perm_nil.
  - destruct (f x); simpl.
    + apply perm_skip, IH.
    + apply Permutation_sym, Permutation_cons_app, Permutation_sym, IH.
Qed.

(** ** Objects *)

Module JsObjectFacts.
Import JsObject.

Lemma entries_perm {V : Type} (o : t V) : Permutation (entries o) o.
Proof.
  unfold entries.
  eapply perm_trans; [|apply (partition_perm (fun kv => is_array_index (fst kv)))].
  apply Permutation_app_tail, sort_by_perm.
Qed.

Lemma keys_perm {V : Type} (o : t V) : Permutation (keys o) (map fst o).
Proof. apply Permutation_map, entries_perm. Qed.

Lemma values_perm {V : Type} (o : t V) : Permutation (values o) (map snd o).
Proof. apply Permutation_map, entries_perm. Qed.

Lemma get_set_same {V : Type} (o : t V) (k : string) (v : V) :
  get (set o k v) k = Some v.
Proof.
  induction o as [|[k' v'] o IH]; simpl.
  - now rewrite String.eqb_refl.
  - destruct (String.eqb k' k) eqn:E; simpl; rewrite E; auto.
Qed.

Lemma get_set_other {V : Type} (o : t V) (k k0 : string) (v : V) :
  k <> k0 -> get (set o k v) k0 = get o k0.
Proof.
  intros Hne. induction o as [|[k' v'] o IH]; simpl.
  - destruct (String.eqb_spec k k0); congruence.
  - destruct (String.eqb_spec k' k) as [->|Hk]; simpl.
    + destruct (String.eqb_spec k k0); congruence.
    + now rewrite IH.
Qed.

Lemma get_In {V : Type} (o : t V) (k : string) (v : V) :
  get o k = Some v -> In (k, v) o.
Proof.
  induction o as [|[k' v'] o IH]; simpl; [discriminate|].
  destruct (String.eqb_spec k' k) as [->|Hk]; intros H.
  - injection H as ->. now left.
  - right. auto.
Qed.

Lemma get_None {V : Type} (o : t V) (k : string) :
  get o k = None <-> ~ In k (map fst o).
Proof.
  induction o as [|[k' v'] o IH]; simpl.
  - tauto.
  - destruct (String.eqb_spec k' k) as [->|Hk].
    + split; [discriminate | intros H; exfalso; apply H; now left].
    + rewrite IH. tauto.
Qed.

Lemma In_get {V : Type} (o : t V) (k : string) (v : V) :
  NoDup (map fst o) -> In (k, v) o -> get o k = Some v.
Proof.
  induction o as [|[k' v'] o IH]; simpl; [tauto|].
  intros Hnd [H|H]; inversion Hnd as [|? ? Hnot Hnd']; subst.
  - injection H as -> ->. now rewrite String.eqb_refl.
  - destruct (String.eqb_spec k' k) as [->|Hk].
    + exfalso. apply Hnot. apply (in_map fst) in H. exact H.
    + auto.
Qed.

(** Assignment replaces the value of an own key in place and appends a
    new key. *)
Lemma set_existing {V : Type} (o : t V) (k : string) (v : V) :
  get o k <> None -> map fst (set o k v) = map fst o.
Proof.
  induction o as [|[k' v'] o IH]; simpl; [congruence|].
  destruct (String.eqb_spec k' k) as [->|Hk]; simpl; intros H.
  - reflexivity.
  - now rewrite IH.
Qed.

Lemma set_fresh {V : Type} (o : t V) (k : string) (v : V) :
  get o k = None -> set o k v = o ++ [(k, v)].
Proof.
  induction o as [|[k' v'] o IH]; simpl; [reflexivity|].
  destruct (String.eqb_spec k' k) as [->|Hk]; simpl; intros H.
  - discriminate.
  - now rewrite IH.
Qed.

Lemma set_keys_NoDup {V : Type} (o : t V) (k : string) (v : V) :
  NoDup (map fst o) -> NoDup (map fst (set o k v)).
Proof.
  intros Hnd. destruct (get o k) eqn:E.
  - rewrite set_existing; [exact Hnd | congruence].
  - rewrite set_fresh by exact E. rewrite map_app; simpl.
    apply get_None in E.
    apply Permutation_NoDup with (k :: map fst o).
    + apply Permutation_cons_append.
    + now constructor.
Qed.

End JsObjectFacts.

(** ** Consolidation *)

Lemma sumZ_app (l l' : list Z) : sumZ (l ++ l') = sumZ l + sumZ l'.
Proof. induction l as [|x l IH]; simpl; [reflexivity | rewrite IH; lia]. Qed.


Lemma find_snoc {A : Type} (f : A -> bool) (l : list A) (x : A) :
  find f (l ++ [x]) =
  match find f l with
  | Some y => Some y
  | None => if f x then Some x else None
  end.
Proof.
  induction l as [|y l IH]; simpl; [reflexivity|].
  destruct (f y); [reflexivity | exact IH].
Qed.

Lemma NoDup_map_inj {A B : Type} (f : A -> B) (l : list A) (a b : A) :
  NoDup (map f l) -> In a l -> In b l -> f a = f b -> a = b.
Proof.
  induction l as [|x l IH]; simpl; [tauto|].
  intros Hnd Ha Hb Hf. inversion Hnd as [|? ? Hnot Hnd']; subst.
  destruct Ha as [->|Ha], Hb as [->|Hb]; auto.
  - exfalso. apply Hnot. rewrite Hf. now apply in_map.
  - exfalso. apply Hnot. rewrite <- Hf. now apply in_map.
Qed.

Lemma consolidatedStocks_snoc (rows : list Row.t) (r : Row.t) :
  consolidatedStocks_of (rows ++ [r]) =
  consolidate_row (consolidatedStocks_of rows) r.
Proof. unfold consolidatedStocks_of. now rewrite fold_left_app. Qed.

Lemma rows_stock_snoc (k : string) (rows : list Row.t) (r : Row.t) :
  rows_stock k (rows ++ [r]) =
  rows_stock k rows + (if String.eqb (Row.productId r) k then Row.stockStatus r else 0).
Proof.
  unfold rows_stock. rewrite filter_app, map_app, sumZ_app. simpl.
  destruct (String.eqb (Row.productId r) k); simpl; lia.
Qed.

Lemma first_row_None_stock (k : string) (rows : list Row.t) :
  first_row k rows = None -> rows_stock k rows = 0.
Proof.
  unfold first_row, rows_stock.
  induction rows as [|r rows IH]; simpl; [reflexivity|].
  destruct (String.eqb (Row.productId r) k); [discriminate | exact IH].
Qed.

Lemma consolidatedStocks_get (rows : list Row.t) (k : string) :
  JsObject.get (consolidatedStocks_of rows) k = consolidated_record k rows.
Proof.
  revert k. induction rows as [|r rows IH] using rev_ind; intros k.
  - unfold consolidated_record. now destruct (JsObject.inherited k).
  - rewrite consolidatedStocks_snoc. unfold consolidate_row.
    set (id := Row.productId r).
    pose proof (IH id) as Hid. pose proof (IH k) as Hk.
    unfold consolidated_record, first_row in *.
    rewrite find_snoc, rows_stock_snoc. fold id.
    destruct (String.eqb_spec id k) as [<-|Hne].
    + clear Hk. destruct (JsObject.inherited id) eqn:Hinh.
      * now rewrite Hid.
      * destruct (JsObject.get (consolidatedStocks_of rows) id)
          as [existing|] eqn:E;
          rewrite JsObjectFacts.get_set_same;
          destruct (find _ rows) as [r0|] eqn:F; try discriminate.
        -- injection Hid as ->. reflexivity.
        -- rewrite (first_row_None_stock id rows F). reflexivity.
    + match goal with
      | |- JsObject.get ?o k = _ =>
          assert (Hget : JsObject.get o k
                         = JsObject.get (consolidatedStocks_of rows) k)
      end.
      { destruct (JsObject.get (consolidatedStocks_of rows) id);
          [|destruct (JsObject.inherited id)];
          rewrite ?JsObjectFacts.get_set_other by exact Hne; reflexivity. }
      rewrite Hget, Hk.
      destruct (JsObject.inherited k); [reflexivity|].
      destruct (find (fun r0 => String.eqb (Row.productId r0) k) rows);
        [now rewrite Z.add_0_r | reflexivity].
Qed.

Lemma consolidatedStocks_keys_NoDup (rows : list Row.t) :
  NoDup (map fst (consolidatedStocks_of rows)).
Proof.
  induction rows as [|r rows IH] using rev_ind; [constructor|].
  rewrite consolidatedStocks_snoc. unfold consolidate_row.
  destruct (JsObject.get _ _); [|destruct (JsObject.inherited _)];
    try exact IH; now apply JsObjectFacts.set_keys_NoDup.
Qed.

(** In the object of one month every record sits under its own id. *)
Lemma consolidatedStocks_key (rows : list Row.t) (k : string) (p : Product.t) :
  In (k, p) (consolidatedStocks_of rows) -> Product.productId p = k.
Proof.
  intros H.
  apply JsObjectFacts.In_get in H; [|apply consolidatedStocks_keys_NoDup].
  rewrite consolidatedStocks_get in H. unfold consolidated_record in H.
  destruct (JsObject.inherited k); [discriminate|].
  destruct (first_row k rows); [|discriminate].
  injection H as <-. reflexivity.
Qed.

Lemma consolidate_ids (order : Order.t) :
  Permutation (map Product.productId (consolidate order))
              (map fst (consolidatedStocks_of (rows_of order))).
Proof.
  unfold consolidate.
  eapply perm_trans;
    [apply Permutation_map, JsObjectFacts.values_perm|].
  rewrite map_map.
  erewrite map_ext_in; [apply Permutation_refl|].
  intros [k p] H. simpl. now apply consolidatedStocks_key in H.
Qed.

Lemma consolidate_NoDup (order : Order.t) :
  NoDup (map Product.productId (consolidate order)).
Proof.
  eapply Permutation_NoDup;
    [apply Permutation_sym, consolidate_ids | apply consolidatedStocks_keys_NoDup].
Qed.

Lemma find_product_some (l : list Product.t) (k : string) (p : Product.t) :
  NoDup (map Product.productId l) -> In p l -> Product.productId p = k ->
  find_product l k = Some p.
Proof.
  intros Hnd Hin Hid. unfold find_product.
  destruct (find _ l) as [q|] eqn:F.
  - apply find_some in F as [Hq Hk]. apply String.eqb_eq in Hk.
    f_equal. eapply NoDup_map_inj; eauto. congruence.
  - eapply find_none in F; [|exact Hin]. simpl in F.
    rewrite Hid, String.eqb_refl in F. discriminate.
Qed.

Lemma find_product_consolidate (order : Order.t) (k : string) :
  find_product (consolidate order) k = consolidated_record k (rows_of order).
Proof.
  rewrite <- consolidatedStocks_get.
  destruct (JsObject.get _ k) as [p|] eqn:E.
  - apply JsObjectFacts.get_In in E.
    apply find_product_some.
    + apply consolidate_NoDup.
    + unfold consolidate.
      eapply Permutation_in;
        [apply Permutation_sym, JsObjectFacts.values_perm|].
      change p with (snd (k, p)). now apply in_map.
    + now apply consolidatedStocks_key in E.
  - unfold find_product. destruct (find _ _) as [q|] eqn:F; [|reflexivity].
    apply find_some in F as [Hq Hk]. apply String.eqb_eq in Hk.
    apply JsObjectFacts.get_None in E. exfalso. apply E.
    eapply Permutation_in; [apply consolidate_ids|].
    rewrite <- Hk. now apply in_map.
Qed.

Lemma monthly_snoc (orders : list Order.t) (order : Order.t) :
  monthlyConsolidatedData_of (orders ++ [order]) =
  store_month (monthlyConsolidatedData_of orders) (Order.name order)
    (consolidate order).
Proof. unfold monthlyConsolidatedData_of. now rewrite fold_left_app. Qed.

Lemma monthly_keys_NoDup (orders : list Order.t) :
  NoDup (map fst (monthlyConsolidatedData_of orders)).
Proof.
  induction orders as [|order orders IH] using rev_ind; [constructor|].
  rewrite monthly_snoc. unfold store_month.
  destruct (String.eqb _ _); [exact IH|].
  now apply JsObjectFacts.set_keys_NoDup.
Qed.

(** A month holds the records of the last order that carries its name;
    no month is called ["__proto__"]. *)
Lemma monthly_get (orders : list Order.t) (monthKey : string) :
  JsObject.get (monthlyConsolidatedData_of orders) monthKey =
  if String.eqb monthKey "__proto__" then None
  else option_map consolidate
         (find (fun order => String.eqb (Order.name order) monthKey)
               (rev orders)).
Proof.
  induction orders as [|order orders IH] using rev_ind;
    [now destruct (String.eqb monthKey "__proto__")|].
  rewrite monthly_snoc, rev_app_distr. unfold store_month. cbn [rev app find].
  destruct (String.eqb_spec (Order.name order) "__proto__") as [Hp|Hp].
  - rewrite IH.
    destruct (String.eqb_spec monthKey "__proto__") as [Hk|Hk]; [reflexivity|].
    destruct (String.eqb_spec (Order.name order) monthKey); [congruence|].
    reflexivity.
  - destruct (String.eqb_spec (Order.name order) monthKey) as [<-|Hne].
    + rewrite JsObjectFacts.get_set_same.
      destruct (String.eqb_spec (Order.name order) "__proto__");
        [contradiction | reflexivity].
    + now rewrite JsObjectFacts.get_set_other.
Qed.

(** The month an own key holds. *)
Lemma monthly_get_key (orders : list Order.t) (monthKey : string)
    (monthData : list Product.t) :
  JsObject.get (monthlyConsolidatedData_of orders) monthKey = Some monthData ->
  monthKey <> "__proto__"%string /\
  exists order,
    find (fun o => String.eqb (Order.name o) monthKey) (rev orders) = Some order /\
    monthData = consolidate order.
Proof.
  rewrite monthly_get.
  destruct (String.eqb_spec monthKey "__proto__"); [discriminate|].
  destruct (find _ (rev orders)) as [order|]; [|discriminate].
  intros [= <-]. split; [assumption|]. eauto.
Qed.



(** ** The analysis of one product *)

Lemma firstn_S_nth_error {A : Type} (l : list A) (m : nat) (x : A) :
  nth_error l m = Some x -> firstn (S m) l = firstn m l ++ [x].
Proof.
  revert m. induction l as [|y l IH]; intros [|m]; simpl; try discriminate.
  - now intros [= ->].
  - intros H. now rewrite <- (IH m H).
Qed.

Section Analysis.
Variable data : JsObject.t (list Product.t).
Variable productId : string.

Let monthKeys := monthKeys_of data.
Let initialStock := initialStock_of data monthKeys productId.

(** The state of the second loop after its first [m] iterations. *)
Let walk_upto (m : nat) : locals :=
  fold_left (walk_body data monthKeys productId initialStock)
    (seq 0 m) (mkLocals 0 0 0 0).

Lemma walk_upto_S (m : nat) :
  walk_upto (S m) =
  walk_body data monthKeys productId initialStock (walk_upto m) m.
Proof. unfold walk_upto. now rewrite seq_S, fold_left_app. Qed.

Lemma walk_is_upto :
  walk data monthKeys productId initialStock =
  walk_upto (List.length monthKeys).
Proof. reflexivity. Qed.

Lemma series_length : List.length (series_of data productId) = List.length monthKeys.
Proof. unfold series_of. now rewrite length_map. Qed.

Lemma series_nth (i : nat) :
  (i < List.length monthKeys)%nat ->
  nth_error (series_of data productId) i =
  Some (stock_in data productId (nth i monthKeys EmptyString)).
Proof.
  intros Hi. unfold series_of. fold monthKeys.
  rewrite nth_error_map, (nth_error_nth' _ EmptyString Hi). reflexivity.
Qed.

(** *** The peak *)

Let peak_step (acc : Z) (monthKey : string) : Z :=
  match find_product (month_data data monthKey) productId with
  | Some product =>
      if Product.stockStatus product >? acc
      then Product.stockStatus product else acc
  | None => acc
  end.

Lemma peak_fold (l : list string) (acc : Z) :
  let r := fold_left peak_step l acc in
  acc <= r /\
  (forall k s, In k l -> stock_in data productId k = Some s -> s <= r) /\
  (r = acc \/ exists k, In k l /\ stock_in data productId k = Some r).
Proof.
  revert acc. induction l as [|k l IH]; intros acc; simpl.
  - repeat split; [lia | tauto | now left].
  - destruct (IH (peak_step acc k)) as (Hle & Hall & Hex).
    assert (Hstep : acc <= peak_step acc k /\
                    (forall s, stock_in data productId k = Some s ->
                               s <= peak_step acc k) /\
                    (peak_step acc k = acc \/
                     stock_in data productId k = Some (peak_step acc k))).
    { unfold peak_step, stock_in.
      destruct (find_product _ _) as [p|]; simpl.
      - destruct (Z.gtb_spec (Product.stockStatus p) acc);
          repeat split; try lia; try (intros s [= <-]; lia); auto.
      - repeat split; [lia | discriminate | now left]. }
    destruct Hstep as (H1 & H2 & H3).
    repeat split.
    + lia.
    + intros k0 s [<-|Hin] Hs; [specialize (H2 s Hs); lia | eauto].
    + destruct Hex as [Hr|(k0 & Hin & Hs)].
      * destruct H3 as [H3|H3].
        -- left. congruence.
        -- right. exists k. split; [now left | congruence].
      * right. exists k0. split; [now right | exact Hs].
Qed.

Lemma initialStock_nonneg : 0 <= initialStock.
Proof. apply (peak_fold monthKeys 0). Qed.

Lemma initialStock_upper (k : string) (s : Z) :
  In k monthKeys -> stock_in data productId k = Some s -> s <= initialStock.
Proof. apply (peak_fold monthKeys 0). Qed.

Lemma initialStock_attained :
  initialStock = 0 \/
  exists k, In k monthKeys /\ stock_in data productId k = Some initialStock.
Proof. apply (peak_fold monthKeys 0). Qed.

(** *** One iteration, by the stock of the month *)

Lemma walk_body_absent (st : locals) (i : nat) :
  stock_in data productId (nth i monthKeys EmptyString) = None ->
  walk_body data monthKeys productId initialStock st i = st.
Proof.
  unfold stock_in, walk_body.
  destruct (find_product _ _); [discriminate | reflexivity].
Qed.

Lemma walk_body_first (st : locals) (s : Z) :
  stock_in data productId (nth 0 monthKeys EmptyString) = Some s ->
  walk_body data monthKeys productId initialStock st 0%nat =
  set_leftOver_if_last monthKeys 0 s
    (mkLocals (totalSales st) (leftOver st) (validMonths st) initialStock).
Proof.
  unfold stock_in, walk_body.
  destruct (find_product _ _); [|discriminate].
  now intros [= <-].
Qed.

Lemma walk_body_sale (st : locals) (i : nat) (s : Z) :
  stock_in data productId (nth (S i) monthKeys EmptyString) = Some s ->
  previousStock st - s > 0 ->
  walk_body data monthKeys productId initialStock st (S i) =
  set_leftOver_if_last monthKeys (S i) s
    (mkLocals (totalSales st + (previousStock st - s)) (leftOver st)
       (validMonths st + 1) s).
Proof.
  unfold stock_in, walk_body.
  destruct (find_product _ _); [|discriminate].
  intros [= <-] Hs. simpl.
  destruct (Z.gtb_spec (previousStock st - Product.stockStatus t) 0); [reflexivity | lia].
Qed.

Lemma walk_body_skip (st : locals) (i : nat) (s : Z) :
  stock_in data productId (nth (S i) monthKeys EmptyString) = Some s ->
  previousStock st - s <= 0 ->
  walk_body data monthKeys productId initialStock st (S i) =
  mkLocals (totalSales st) (leftOver st) (validMonths st) s.
Proof.
  unfold stock_in, walk_body.
  destruct (find_product _ _); [|discriminate].
  intros [= <-] Hs. simpl.
  destruct (Z.gtb_spec (previousStock st - Product.stockStatus t) 0); [lia | reflexivity].
Qed.

(** *** The leftover is 0 or the stock of some month *)

Lemma leftOver_from_series (m : nat) :
  (m <= List.length monthKeys)%nat ->
  leftOver (walk_upto m) = 0 \/
  exists k, In k monthKeys /\
            stock_in data productId k = Some (leftOver (walk_upto m)).
Proof.
  induction m as [|m IH]; intros Hm; [now left|].
  rewrite walk_upto_S.
  assert (Hin : In (nth m monthKeys EmptyString) monthKeys)
    by (apply nth_In; lia).
  specialize (IH ltac:(lia)).
  destruct (stock_in data productId (nth m monthKeys EmptyString)) as [s|] eqn:E.
  - assert (Hset : forall st, leftOver st = leftOver (walk_upto m) ->
              leftOver (set_leftOver_if_last monthKeys m s st) = 0 \/
              exists k, In k monthKeys /\
                stock_in data productId k =
                Some (leftOver (set_leftOver_if_last monthKeys m s st))).
    { intros st Hst. unfold set_leftOver_if_last.
      destruct (_ =? _); simpl.
      - right. eauto.
      - rewrite Hst. exact IH. }
    destruct m as [|m].
    + rewrite (walk_body_first _ s E). now apply Hset.
    + destruct (Z_gt_le_dec (previousStock (walk_upto (S m)) - s) 0) as [Hs|Hs].
      * rewrite (walk_body_sale _ _ s E Hs). now apply Hset.
      * rewrite (walk_body_skip _ _ s E Hs). exact IH.
  - rewrite (walk_body_absent _ _ E). exact IH.
Qed.

Lemma analyze_leftOver_le_peak :
  Product.leftOver (analyze data productId)
  <= Product.stockStatus (analyze data productId).
Proof.
  unfold analyze. simpl. fold monthKeys. fold initialStock.
  rewrite walk_is_upto.
  destruct (leftOver_from_series (List.length monthKeys) (le_n _))
    as [H|(k & Hin & Hs)].
  - rewrite H. apply initialStock_nonneg.
  - eapply initialStock_upper; eauto.
Qed.

(** *** Agreement with the walk of the specification *)

Lemma view_set_leftOver (i : nat) (s : Z) (st : locals) :
  walk_view (set_leftOver_if_last monthKeys i s st) = walk_view st.
Proof. unfold walk_view, set_leftOver_if_last. destruct (_ =? _); reflexivity. Qed.

Lemma walk_body_spec_step (st : locals) (i : nat) :
  walk_view (walk_body data monthKeys productId initialStock st (S i)) =
  spec_walk_step (walk_view st)
    (stock_in data productId (nth (S i) monthKeys EmptyString)).
Proof.
  destruct (stock_in data productId (nth (S i) monthKeys EmptyString))
    as [s|] eqn:E.
  - destruct (Z_gt_le_dec (previousStock st - s) 0) as [Hs|Hs].
    + rewrite (walk_body_sale _ _ s E Hs), view_set_leftOver.
      unfold walk_view, spec_walk_step; simpl.
      destruct (Z.gtb_spec (previousStock st - s) 0); [reflexivity | lia].
    + rewrite (walk_body_skip _ _ s E Hs).
      unfold walk_view, spec_walk_step; simpl.
      destruct (Z.gtb_spec (previousStock st - s) 0); [lia | reflexivity].
  - now rewrite (walk_body_absent _ _ E).
Qed.

Lemma walk_upto_1 :
  (0 < List.length monthKeys)%nat ->
  walk_view (walk_upto 1) =
  (0, 0, baseline_of initialStock (series_of data productId)).
Proof.
  intros Hn. rewrite walk_upto_S.
  pose proof (series_nth 0 Hn) as Hs.
  destruct (series_of data productId) as [|o ser]; [discriminate|].
  simpl in Hs. injection Hs as ->.
  destruct (stock_in data productId (nth 0 monthKeys EmptyString)) as [s|] eqn:E.
  - now rewrite (walk_body_first _ s E), view_set_leftOver.
  - now rewrite (walk_body_absent _ _ E).
Qed.

Lemma walk_upto_spec (m : nat) :
  (S m <= List.length monthKeys)%nat ->
  walk_view (walk_upto (S m)) =
  fold_left spec_walk_step (firstn m (tl (series_of data productId)))
    (0, 0, baseline_of initialStock (series_of data productId)).
Proof.
  induction m as [|m IH]; intros Hm.
  - rewrite firstn_0. apply walk_upto_1. lia.
  - rewrite walk_upto_S, walk_body_spec_step, IH by lia.
    assert (Hnth : nth_error (tl (series_of data productId)) m =
                   Some (stock_in data productId (nth (S m) monthKeys EmptyString))).
    { rewrite <- (series_nth (S m)) by lia.
      destruct (series_of data productId); [now destruct m | reflexivity]. }
    rewrite (firstn_S_nth_error _ _ _ Hnth), fold_left_app. reflexivity.
Qed.

Lemma walk_refines_spec_walk :
  walk_view (walk data monthKeys productId initialStock) =
  spec_walk (baseline_of initialStock (series_of data productId))
    (series_of data productId).
Proof.
  rewrite walk_is_upto. unfold spec_walk.
  pose proof series_length as Hlen.
  destruct (List.length monthKeys) as [|n] eqn:En.
  - destruct (series_of data productId); [reflexivity | discriminate].
  - rewrite walk_upto_spec by lia.
    rewrite firstn_all2; [reflexivity|].
    rewrite length_tl, Hlen. lia.
Qed.

(** *** The leftover is written in the last iteration only *)

Lemma set_leftOver_not_last (i : nat) (s : Z) (st : locals) :
  (S i < List.length monthKeys)%nat ->
  set_leftOver_if_last monthKeys i s st = st.
Proof.
  intros Hi. unfold set_leftOver_if_last.
  destruct (Z.eqb_spec (Z.of_nat i) (Z.of_nat (List.length monthKeys) - 1));
    [lia | reflexivity].
Qed.

Lemma set_leftOver_last (i : nat) (s : Z) (st : locals) :
  List.length monthKeys = S i ->
  leftOver (set_leftOver_if_last monthKeys i s st) = s.
Proof.
  intros Hi. unfold set_leftOver_if_last.
  destruct (Z.eqb_spec (Z.of_nat i) (Z.of_nat (List.length monthKeys) - 1));
    [reflexivity | lia].
Qed.

Lemma leftOver_before_last (m : nat) :
  (m < List.length monthKeys)%nat -> leftOver (walk_upto m) = 0.
Proof.
  induction m as [|m IH]; intros Hm; [reflexivity|].
  specialize (IH ltac:(lia)). rewrite walk_upto_S.
  destruct (stock_in data productId (nth m monthKeys EmptyString)) as [s|] eqn:E.
  - destruct m as [|m].
    + rewrite (walk_body_first _ s E), set_leftOver_not_last by lia. exact IH.
    + destruct (Z_gt_le_dec (previousStock (walk_upto (S m)) - s) 0) as [Hs|Hs].
      * rewrite (walk_body_sale _ _ s E Hs), set_leftOver_not_last by lia.
        exact IH.
      * rewrite (walk_body_skip _ _ s E Hs). exact IH.
  - rewrite (walk_body_absent _ _ E). exact IH.
Qed.

(** The leftover is the stock of the last month only when the product is
    present there and either there is a single month or the last month
    is a sales month; it is 0 otherwise. *)
Lemma leftOver_last_month (n : nat) :
  List.length monthKeys = S n ->
  leftOver (walk data monthKeys productId initialStock) =
  match stock_in data productId (nth n monthKeys EmptyString) with
  | Some s =>
      if (n =? 0)%nat then s
      else if previousStock (walk_upto n) - s >? 0 then s else 0
  | None => 0
  end.
Proof.
  intros Hn. rewrite walk_is_upto, Hn, walk_upto_S.
  pose proof (leftOver_before_last n ltac:(lia)) as H0.
  destruct (stock_in data productId (nth n monthKeys EmptyString)) as [s|] eqn:E.
  - destruct n as [|n].
    + rewrite (walk_body_first _ s E). now apply set_leftOver_last.
    + cbn [Nat.eqb].
      destruct (Z.gtb_spec (previousStock (walk_upto (S n)) - s) 0) as [Hs|Hs].
      * rewrite (walk_body_sale _ _ s E (Z.lt_gt _ _ Hs)).
        now apply set_leftOver_last.
      * rewrite (walk_body_skip _ _ s E Hs). exact H0.
  - rewrite (walk_body_absent _ _ E). exact H0.
Qed.

End Analysis.

(** ** The walk of the specification on a product present every month *)

Lemma decreasing_below_head (a : Z) (l : list Z) :
  neighbours Z.gt (a :: l) -> forall s, In s (a :: l) -> s <= a.
Proof.
  revert a. induction l as [|b l IH]; intros a H s [<-|Hin]; try lia.
  - destruct Hin.
  - destruct H as [Hab Hrest]. specialize (IH b Hrest s Hin). lia.
Qed.

Lemma last_default (l : list Z) (x d d' : Z) :
  last (x :: l) d = last (x :: l) d'.
Proof.
  revert x. induction l as [|y l IH]; intros x; [reflexivity|].
  change (last (y :: l) d = last (y :: l) d'). apply IH.
Qed.

Lemma last_cons_any (x d : Z) (rest : list Z) :
  last (x :: rest) d = last rest x.
Proof.
  destruct rest as [|y rest]; [reflexivity|].
  change (last (y :: rest) d = last (y :: rest) x). apply last_default.
Qed.

Ltac pair_eq :=
  repeat match goal with |- (_, _) = (_, _) => apply f_equal2 end; try lia.

Lemma spec_walk_decreasing (rest : list Z) (total valid prev : Z) :
  neighbours Z.gt (prev :: rest) ->
  fold_left spec_walk_step (map Some rest) (total, valid, prev) =
  (total + (prev - last rest prev),
   valid + Z.of_nat (List.length rest),
   last rest prev).
Proof.
  revert total valid prev.
  induction rest as [|s rest IH]; intros total valid prev H.
  - simpl. pair_eq.
  - destruct H as [Hgt Hrest].
    cbn [map fold_left spec_walk_step].
    destruct (Z.gtb_spec (prev - s) 0) as [_|Hle]; [|lia].
    rewrite (IH _ _ _ Hrest), last_cons_any.
    cbn [List.length]. pair_eq.
Qed.


(** ** Months and products of the consolidated data *)

Lemma monthKeys_perm (data : JsObject.t (list Product.t)) :
  Permutation (monthKeys_of data) (map fst data).
Proof.
  unfold monthKeys_of.
  eapply perm_trans; [apply sort_by_perm | apply JsObjectFacts.keys_perm].
Qed.

(** The month keys are in ascending lexicographic order. *)
Lemma monthKeys_sorted (data : JsObject.t (list Product.t)) :
  Sorted (fun a b => String.leb a b = true) (monthKeys_of data).
Proof. apply sort_by_sorted, String.leb_total. Qed.

(** Every month key the analysis looks up is an own key of the data. *)
Lemma month_data_own_key (data : JsObject.t (list Product.t)) (monthKey : string) :
  In monthKey (monthKeys_of data) -> JsObject.get data monthKey <> None.
Proof.
  intros H Hn. apply JsObjectFacts.get_None in Hn. apply Hn.
  eapply Permutation_in; [apply monthKeys_perm | exact H].
Qed.

Lemma monthly_keys_distinct_names (orders : list Order.t) :
  NoDup (map Order.name orders) ->
  ~ In "__proto__"%string (map Order.name orders) ->
  map fst (monthlyConsolidatedData_of orders) = map Order.name orders.
Proof.
  induction orders as [|order orders IH] using rev_ind; intros Hnd Hproto;
    [reflexivity|].
  rewrite map_app in Hnd, Hproto. simpl in Hnd, Hproto.
  assert (Hnd' : NoDup (map Order.name orders))
    by (eapply NoDup_app_remove_r; exact Hnd).
  assert (Hproto' : ~ In "__proto__"%string (map Order.name orders))
    by (intros H; apply Hproto, in_or_app; now left).
  specialize (IH Hnd' Hproto').
  rewrite monthly_snoc. unfold store_month.
  destruct (String.eqb_spec (Order.name order) "__proto__") as [Hp|Hp].
  - exfalso. apply Hproto, in_or_app. right. now left.
  - rewrite JsObjectFacts.set_fresh.
    + rewrite !map_app, IH. reflexivity.
    + apply JsObjectFacts.get_None. rewrite IH. intros Hin.
      apply NoDup_remove_2 in Hnd. rewrite app_nil_r in Hnd. contradiction.
Qed.

(** With one order per month name, none of them ["__proto__"], there
    are as many months as orders. *)
Lemma monthKeys_length (orders : list Order.t) :
  NoDup (map Order.name orders) ->
  ~ In "__proto__"%string (map Order.name orders) ->
  List.length (monthKeys_of (monthlyConsolidatedData_of orders)) =
  List.length orders.
Proof.
  intros Hnd Hproto.
  rewrite (Permutation_length (monthKeys_perm _)).
  rewrite (monthly_keys_distinct_names _ Hnd Hproto). apply length_map.
Qed.

Lemma JsSet_add_In (s : JsSet.t) (x y : string) :
  In y (JsSet.add s x) <-> In y s \/ y = x.
Proof.
  unfold JsSet.add, JsSet.has.
  destruct (existsb (String.eqb x) s) eqn:E.
  - split; [tauto|]. intros [H| ->]; [exact H|].
    apply existsb_exists in E as (z & Hz & Hxz).
    apply String.eqb_eq in Hxz. now subst.
  - rewrite in_app_iff. simpl. intuition.
Qed.

Lemma productIds_month (monthData : list Product.t) (ids : JsSet.t) (y : string) :
  In y (fold_left (fun ids product => JsSet.add ids (Product.productId product))
          monthData ids)
  <-> In y ids \/ In y (map Product.productId monthData).
Proof.
  revert ids. induction monthData as [|p monthData IH]; intros ids; simpl.
  - tauto.
  - rewrite IH, JsSet_add_In. intuition.
Qed.

(** The product ids analysed are those of the records of some month. *)
Lemma productIds_In (data : JsObject.t (list Product.t)) (y : string) :
  In y (productIds_of data) <->
  exists monthData, In monthData (JsObject.values data) /\
                    In y (map Product.productId monthData).
Proof.
  unfold productIds_of.
  assert (H : forall l ids,
    In y (fold_left
            (fun ids monthData =>
               fold_left (fun ids product => JsSet.add ids (Product.productId product))
                         monthData ids) l ids)
    <-> In y ids \/ exists monthData, In monthData l /\
                                     In y (map Product.productId monthData)).
  { induction l as [|md l IH]; intros ids; simpl.
    - split; [tauto | intros [H|(md & [] & _)]; exact H].
    - rewrite IH, productIds_month. split.
      + intros [[H|H]|(md' & H1 & H2)]; eauto 6.
      + intros [H|(md' & [<-|H1] & H2)]; eauto 6. }
  rewrite H. simpl. split; [intros [[]|H']; exact H' | now right].
Qed.

(** A product is analysed only when the data has a month. *)
Lemma productIds_months (data : JsObject.t (list Product.t)) (y : string) :
  In y (productIds_of data) -> monthKeys_of data <> [].
Proof.
  intros H Hnil. apply productIds_In in H as (md & Hmd & _).
  pose proof (Permutation_length (monthKeys_perm data)) as Hlen.
  rewrite Hnil in Hlen. simpl in Hlen.
  pose proof (Permutation_length (JsObjectFacts.values_perm data)) as Hv.
  rewrite !length_map in *. destruct (JsObject.values data); [destruct Hmd|].
  simpl in Hv. lia.
Qed.

Lemma present_series (data : JsObject.t (list Product.t)) (productId : string)
    (s0 : Z) (rest : list Z) :
  series_of data productId = map Some (s0 :: rest) ->
  baseline_of (initialStock_of data (monthKeys_of data) productId)
    (series_of data productId)
  = initialStock_of data (monthKeys_of data) productId /\
  s0 <= initialStock_of data (monthKeys_of data) productId /\
  (initialStock_of data (monthKeys_of data) productId = 0 \/
   In (initialStock_of data (monthKeys_of data) productId) (s0 :: rest)) /\
  List.length (monthKeys_of data) = S (List.length rest).
Proof.
  intros Hser.
  assert (Hin : forall k s, In k (monthKeys_of data) ->
                 stock_in data productId k = Some s -> In s (s0 :: rest)).
  { intros k s Hk Hs.
    apply (in_map (stock_in data productId)) in Hk.
    fold (series_of data productId) in Hk. rewrite Hser, Hs in Hk.
    apply in_map_iff in Hk as (x & [= ->] & Hx). exact Hx. }
  pose proof (series_length data productId) as Hlen.
  rewrite Hser in Hlen. simpl in Hlen. rewrite length_map in Hlen.
  repeat split.
  - now rewrite Hser.
  - apply (initialStock_upper data productId (nth 0 (monthKeys_of data) EmptyString)).
    + apply nth_In. lia.
    + pose proof (series_nth data productId 0 ltac:(lia)) as H0.
      rewrite Hser in H0. simpl in H0. now injection H0 as <-.
  - destruct (initialStock_attained data productId) as [H|(k & Hk & Hs)];
      [now left | right; eauto].
  - lia.
Qed.

Lemma analyze_sales (data : JsObject.t (list Product.t)) (productId : string) :
  let p := analyze data productId in
  let initialStock := initialStock_of data (monthKeys_of data) productId in
  Product.productId p = productId /\
  Product.stockStatus p = initialStock /\
  (Product.totalSales p, Product.months p) =
  fst (spec_walk (baseline_of initialStock (series_of data productId))
         (series_of data productId)) /\
  (Product.months p = 0 ->
   Product.average p = 0%Q /\ Product.enoughForMonths p = 0%Q).
Proof.
  cbv zeta. rewrite <- walk_refines_spec_walk.
  unfold analyze, walk_view; cbn [fst Product.productId Product.stockStatus
    Product.totalSales Product.months Product.average Product.enoughForMonths].
  split; [reflexivity|]. split; [reflexivity|]. split; [reflexivity|].
  intros Hm. rewrite Hm. split; reflexivity.
Qed.

(** ** Documents and failures *)

Lemma fold_thrown {A B : Type} (f : A -> B -> attempt A) (l : list B)
    (error : thrown) :
  fold_left (fun acc x => a <- acc ;; f a x) l (inl error) = inl error.
Proof. induction l as [|x l IH]; simpl; [reflexivity | exact IH]. Qed.

Lemma rows_of_document_of (order : Order.t) :
  rows_of_document (document_of order) = map Some (rows_of order).
Proof.
  unfold rows_of_document, document_of, rows_of. simpl.
  now destruct (Order.rows order).
Qed.

(** The loop over the rows of a document, from any state. *)
Lemma consolidate_rows_objects (rows : list Row.t)
    (stocks : JsObject.t Product.t) :
  fold_left
    (fun acc product =>
       consolidatedStocks <- acc ;;
       match product with
       | Some row => inr (consolidate_row consolidatedStocks row)
       | None => inl (TypeError "productId")
       end)
    (map Some rows) (inr stocks)
  = inr (fold_left consolidate_row rows stocks).
Proof.
  revert stocks. induction rows as [|r rows IH]; intros stocks; simpl;
    [reflexivity | apply IH].
Qed.

Lemma consolidate_rows_null (rows : list (option Row.t))
    (stocks : JsObject.t Product.t) :
  In None rows ->
  fold_left
    (fun acc product =>
       consolidatedStocks <- acc ;;
       match product with
       | Some row => inr (consolidate_row consolidatedStocks row)
       | None => inl (TypeError "productId")
       end)
    rows (inr stocks)
  = inl (TypeError "productId").
Proof.
  revert stocks. induction rows as [|[r|] rows IH]; intros stocks Hin; simpl.
  - destruct Hin.
  - apply IH. destruct Hin as [H|H]; [discriminate | exact H].
  - apply (fold_thrown
             (fun consolidatedStocks product =>
                match product with
                | Some row => inr (consolidate_row consolidatedStocks row)
                | None => inl (TypeError "productId")
                end)).
Qed.

Lemma consolidate_document_of (order : Order.t) :
  consolidate_document (document_of order) = inr (consolidate order).
Proof.
  unfold consolidate_document. rewrite rows_of_document_of.
  now rewrite consolidate_rows_objects.
Qed.

Lemma consolidate_document_null (document : Document.t) :
  In None (rows_of_document document) ->
  consolidate_document document = inl (TypeError "productId").
Proof.
  intros H. unfold consolidate_document.
  now rewrite (consolidate_rows_null _ _ H).
Qed.

(** A document without a null row is an order. *)
Lemma document_is_order (document : Document.t) :
  ~ In None (rows_of_document document) ->
  exists order, document = document_of order.
Proof.
  destruct document as [name [rows|]]; unfold rows_of_document; simpl.
  - intros H.
    assert (Hrows : exists l, rows = map Some l).
    { induction rows as [|[r|] rows IH].
      - now exists [].
      - destruct IH as [l ->]; [intros Hin; apply H; now right|].
        now exists (r :: l).
      - exfalso. apply H. now left. }
    destruct Hrows as [l ->]. now exists (Order.mk name (Some l)).
  - intros _. now exists (Order.mk name None).
Qed.

Lemma monthly_try_snoc (documents : list Document.t) (document : Document.t) :
  monthlyConsolidatedData_try (documents ++ [document]) =
  (data <- monthlyConsolidatedData_try documents ;;
   records <- consolidate_document document ;;
   inr (store_month data (Document.name document) records)).
Proof. unfold monthlyConsolidatedData_try. now rewrite fold_left_app. Qed.

Lemma monthly_try_of_orders (orders : list Order.t) :
  monthlyConsolidatedData_try (map document_of orders) =
  inr (monthlyConsolidatedData_of orders).
Proof.
  induction orders as [|order orders IH] using rev_ind; [reflexivity|].
  rewrite map_app. cbn [map].
  rewrite monthly_try_snoc, IH, monthly_snoc. cbn [bind].
  now rewrite consolidate_document_of.
Qed.

(** The loop over the documents ends normally exactly on orders, and
    throws as soon as one row is null. *)
Lemma monthly_try_cases (documents : list Document.t) :
  (exists orders,
     documents = map document_of orders /\
     monthlyConsolidatedData_try documents
     = inr (monthlyConsolidatedData_of orders)) \/
  ((exists document,
      In document documents /\ In None (rows_of_document document)) /\
   monthlyConsolidatedData_try documents = inl (TypeError "productId")).
Proof.
  induction documents as [|document documents IH] using rev_ind.
  - left. now exists [].
  - rewrite monthly_try_snoc.
    destruct IH as [(orders & -> & Hok)|((bad & Hin & Hnull) & Hfail)].
    + rewrite Hok. cbn [bind].
      destruct (ListDec.In_dec
                  (fun a b : option Row.t =>
                     ltac:(decide equality; decide equality;
                           try apply Z.eq_dec; apply string_dec))
                  None (rows_of_document document)) as [Hnull|Hnone].
      * right. rewrite (consolidate_document_null _ Hnull). split; [|reflexivity].
        exists document. split; [apply in_or_app; right; now left | exact Hnull].
      * left. destruct (document_is_order _ Hnone) as [order ->].
        exists (orders ++ [order]). rewrite map_app. split; [reflexivity|].
        now rewrite consolidate_document_of, monthly_snoc.
    + right. rewrite Hfail. split; [|reflexivity].
      exists bad. split; [apply in_or_app; now left | exact Hnull].
Qed.

Lemma monthly_try_null (documents : list Document.t) (document : Document.t) :
  In document documents -> In None (rows_of_document document) ->
  monthlyConsolidatedData_try documents = inl (TypeError "productId").
Proof.
  intros Hin Hnull.
  destruct (monthly_try_cases documents) as [(orders & -> & _)|[_ H]];
    [|exact H].
  exfalso. apply in_map_iff in Hin as (order & <- & _).
  rewrite rows_of_document_of in Hnull.
  apply in_map_iff in Hnull as (r & Hr & _). discriminate.
Qed.

(** The body of the [try] on orders is the pure pipeline. *)
Lemma try_body_orders (orders : list Order.t) :
  try_body (FindOrders orders) = inr (finalStockStatus_of orders).
Proof.
  unfold try_body, FindOrders. rewrite length_map, monthly_try_of_orders.
  destruct orders; reflexivity.
Qed.

(** * The claims *)

(** C1 (the code departs from the claim).  In [restock_end_series]
    product A is present in the chronologically last month with stock 80,
    yet the record returned for it has leftover 0 and is out of stock: in
    the last iteration the sales are 80 - 80 = 0 (the previous stock is the
    peak), and the [continue] of the branch [sales <= 0] skips the
    assignment of [leftOver]. *)
Theorem leftOver_lost_when_last_month_is_no_sale :
  let data := monthlyConsolidatedData_of restock_end_series in
  stock_in data "A" (last (monthKeys_of data) EmptyString) = Some 80 /\
  map (fun p => (Product.productId p, Product.leftOver p, Product.availability p))
      (finalStockStatus_of restock_end_series)
  = [("A"%string, 0, "Out of Stock"%string)].
Proof. split; reflexivity. Qed.

(** C2 (the code departs from the claim).  On the series 100, 60, 60 of
    the specification the function returns peak 100, total sales 40, one
    valid month and average 40, but leftover 0, availability
    "Out of Stock" and enoughForMonths 0 instead of 60, "Available" and
    1.50. *)
Theorem flat_end_series_output :
  stockAnalyzisBulk (FindOrders flat_end_series) =
  ([], Returned
         [Product.mk "A" EmptyString 100 0 "Out of Stock" 40%Q 40 1 0%Q]).
Proof. reflexivity. Qed.




(** C4, as stated, fails: for a product absent from the first month the
    previous stock is not set to the peak at index 0.  In
    [late_product_series] product A (absent, 30, 50, 10; peak 50) gets
    one valid month and total sales 40 from the loop, where the walk
    described by the claim, started from the peak, counts two valid months
    and total sales 60. *)
Lemma baseline_is_not_the_peak_when_absent_first :
  ~ (forall (orders : list Order.t) (productId : string),
       let data := monthlyConsolidatedData_of orders in
       let initialStock := initialStock_of data (monthKeys_of data) productId in
       In productId (productIds_of data) ->
       walk_view (walk data (monthKeys_of data) productId initialStock)
       = spec_walk initialStock (series_of data productId)).
Proof.
  intros H. specialize (H late_product_series "A"%string).
  cbv zeta in H.
  assert (Hin : In "A"%string
                  (productIds_of (monthlyConsolidatedData_of late_product_series)))
    by (right; left; reflexivity).
  specialize (H Hin). vm_compute in H. discriminate H.
Qed.

(** C4 (amended).  For every product the second loop computes the walk of
    the claim (a month with sales > 0 adds the sales, increments the valid
    months and becomes the previous stock; a month with sales <= 0 is not
    counted but becomes the previous stock; a month without the product
    changes nothing) from a previous stock that, at index 0, is the peak
    when the product is present in the first month and 0 when it is
    absent from it. *)
Theorem walk_follows_spec_walk :
  forall (orders : list Order.t) (productId : string),
    let data := monthlyConsolidatedData_of orders in
    let initialStock := initialStock_of data (monthKeys_of data) productId in
    walk_view (walk data (monthKeys_of data) productId initialStock)
    = spec_walk
        (match series_of data productId with
         | Some _ :: _ => initialStock
         | _ => 0
         end)
        (series_of data productId).
Proof. intros orders productId. apply walk_refines_spec_walk. Qed.

(** C5, as stated, fails: months is counted over the month names, not
    over the snapshots.  In [repeated_name_series] the stock of product A
    strictly decreases over the three snapshots (9, 8, 7) and over the two
    months they leave (9, 7), and the record has months = 1, not 3 - 1. *)
Lemma repeated_month_name_counts_once :
  ~ (forall (orders : list Order.t) (p : Product.t) (l : list Z),
       In p (finalStockStatus_of orders) ->
       series_of (monthlyConsolidatedData_of orders) (Product.productId p)
       = map Some l ->
       neighbours Z.gt l ->
       Product.months p = Z.of_nat (List.length orders) - 1 /\
       Product.totalSales p = Product.stockStatus p - last l 0).
Proof.
  intros H.
  specialize (H repeated_name_series
                (analyze (monthlyConsolidatedData_of repeated_name_series) "A")
                [9; 7]).
  destruct H as [H _].
  - left. reflexivity.
  - reflexivity.
  - simpl. lia.
  - vm_compute in H. discriminate H.
Qed.

(** C5 (amended).  For a series of snapshots with pairwise distinct month
    names, none of them ["__proto__"], and a product present in every
    month whose stock, a non-negative integer of at most 2^53, strictly
    decreases every month: months = number of snapshots - 1 and
    totalSales = peak - stock of the last month, the peak being the stock
    of the first month. *)
Theorem strictly_decreasing_stock_sales :
  forall (orders : list Order.t) (p : Product.t) (s0 : Z) (rest : list Z),
    let data := monthlyConsolidatedData_of orders in
    In p (finalStockStatus_of orders) ->
    NoDup (map Order.name orders) ->
    ~ In "__proto__"%string (map Order.name orders) ->
    series_of data (Product.productId p) = map Some (s0 :: rest) ->
    Forall (fun s => 0 <= s <= 2 ^ 53) (s0 :: rest) ->
    neighbours Z.gt (s0 :: rest) ->
    Product.months p = Z.of_nat (List.length orders) - 1 /\
    Product.totalSales p = Product.stockStatus p - last rest s0 /\
    Product.stockStatus p = s0.
Proof.
  intros orders p s0 rest data Hin Hnd Hproto Hser Hrange Hdec.
  apply in_map_iff in Hin as (pid & <- & _). fold data in Hser |- *.
  destruct (analyze_sales data pid) as (Hid & Hpeak & Hwalk & _).
  rewrite Hid in Hser.
  destruct (present_series data pid s0 rest Hser) as (Hbase & Hlow & Hhigh & Hlen).
  assert (Hs0 : 0 <= s0) by (inversion Hrange; lia).
  assert (Hpk : Product.stockStatus (analyze data pid) = s0).
  { rewrite Hpeak. destruct Hhigh as [H0|Hmem]; [lia|].
    pose proof (decreasing_below_head s0 rest Hdec _ Hmem). lia. }
  rewrite Hbase, Hser, <- Hpeak, Hpk in Hwalk. unfold spec_walk in Hwalk.
  cbn [tl map] in Hwalk.
  rewrite (spec_walk_decreasing rest 0 0 s0 Hdec) in Hwalk.
  apply pair_equal_spec in Hwalk as [Ht Hm]. cbn [fst] in Ht, Hm.
  split; [|split; [|exact Hpk]].
  - rewrite Hm. unfold data in Hlen.
    rewrite (monthKeys_length orders Hnd Hproto) in Hlen. lia.
  - rewrite Hpk. lia.
Qed.

Lemma strictly_decreasing_stock_sales_witness :
  let p := analyze (monthlyConsolidatedData_of falling_series) "A" in
  Product.months p = 4 - 1 /\
  Product.totalSales p = Product.stockStatus p - 4 /\
  Product.stockStatus p = 7.
Proof.
  refine (strictly_decreasing_stock_sales falling_series _ 7 [6; 5; 4]
            _ _ _ _ _ _).
  - left. reflexivity.
  - repeat constructor; simpl; intuition discriminate.
  - simpl. intuition discriminate.
  - reflexivity.
  - repeat constructor; lia.
  - simpl. lia.
Defined.



(** C7.  When the query resolves to [null] or to an empty list, the
    function returns the empty list, and nothing is thrown or logged. *)
Theorem no_orders_returns_empty :
  stockAnalyzisBulk FindNull = ([], Returned []) /\
  stockAnalyzisBulk (FindOrders []) = ([], Returned []).
Proof. split; reflexivity. Qed.

(** C8.  Whatever the body of the [try] throws is logged and rethrown as
    the one generic error: so for a rejected query, and so for a null row
    in any document, whatever came before it; nothing else is ever
    thrown; and a call that returns gives the whole list of the records
    of its orders, never a part of it. *)
Theorem failures_are_generic_and_total :
  (forall (found : find_result) (error : thrown),
     try_body found = inl error ->
     stockAnalyzisBulk found
     = ([ConsoleError "Error while consolidating stock data:" error],
        Thrown "Error While searching data")) /\
  (forall reason : string,
     stockAnalyzisBulk (FindRejected reason)
     = ([ConsoleError "Error while consolidating stock data:" (Rejection reason)],
        Thrown "Error While searching data")) /\
  (forall (documents : list Document.t) (document : Document.t),
     In document documents -> In None (rows_of_document document) ->
     stockAnalyzisBulk (FindDocuments documents)
     = ([ConsoleError "Error while consolidating stock data:"
           (TypeError "productId")],
        Thrown "Error While searching data")) /\
  (forall (found : find_result) (message : string),
     snd (stockAnalyzisBulk found) = Thrown message ->
     message = "Error While searching data"%string /\
     ((exists reason, found = FindRejected reason) \/
      (exists documents document,
         found = FindDocuments documents /\ In document documents /\
         In None (rows_of_document document)))) /\
  (forall (found : find_result) (result : list Product.t),
     snd (stockAnalyzisBulk found) = Returned result ->
     found = FindNull /\ result = [] \/
     exists orders, found = FindOrders orders /\
                    result = finalStockStatus_of orders).
Proof.
  split; [|split; [reflexivity|]].
  { intros found error H. unfold stockAnalyzisBulk. now rewrite H. }
  split; [|split].
  - intros documents document Hin Hnull.
    unfold stockAnalyzisBulk, try_body.
    destruct documents as [|d documents]; [destruct Hin|].
    cbn [List.length Nat.eqb].
    now rewrite (monthly_try_null _ _ Hin Hnull).
  - intros [reason| |documents] message; unfold stockAnalyzisBulk.
    + intros [= <-]. split; [reflexivity|]. left. eauto.
    + discriminate.
    + cbn [try_body].
      destruct (List.length documents =? 0)%nat; [discriminate|].
      destruct (monthly_try_cases documents)
        as [(orders & -> & Hok)|((bad & Hin & Hnull) & Hfail)].
      * rewrite Hok. discriminate.
      * rewrite Hfail. intros [= <-]. split; [reflexivity|].
        right. exists documents, bad. auto.
  - intros [reason| |documents] result; unfold stockAnalyzisBulk.
    + discriminate.
    + intros [= <-]. now left.
    + destruct (monthly_try_cases documents)
        as [(orders & -> & _)|((bad & Hin & Hnull) & Hfail)].
      * fold (FindOrders orders). rewrite try_body_orders.
        intros [= <-]. right. eauto.
      * cbn [try_body].
        destruct documents as [|d documents];
          [destruct Hin | cbn [List.length Nat.eqb]].
        rewrite Hfail. discriminate.
Qed.




(** C10.  In every record the function returns, the leftover is at most
    the reported stock status, the peak. *)
Theorem leftOver_at_most_peak :
  forall found : find_result,
    match snd (stockAnalyzisBulk found) with
    | Returned result =>
        Forall (fun p => Product.leftOver p <= Product.stockStatus p) result
    | Thrown _ => True
    end.
Proof.
  intros found. unfold stockAnalyzisBulk.
  destruct (try_body found) as [error|result] eqn:E; [exact I|].
  cbn [snd].
  assert (Hres : result = [] \/
                 exists data, result = map (analyze data) (productIds_of data)).
  { destruct found as [reason| |documents]; cbn [try_body] in E.
    - discriminate.
    - injection E as <-. now left.
    - destruct (List.length documents =? 0)%nat; [injection E as <-; now left|].
      destruct (monthlyConsolidatedData_try documents) as [e|data];
        [discriminate|]. cbn [bind] in E. injection E as <-. eauto. }
  destruct Hres as [->|(data & ->)]; [constructor|].
  apply Forall_forall. intros p Hin.
  apply in_map_iff in Hin as (pid & <- & _).
  apply analyze_leftOver_le_peak.
Qed.

(** * Further properties of [stockAnalyzisBulk] *)

(** ** The order of the month keys *)

Lemma string_leb_trans (a b c : string) :
  String.leb a b = true -> String.leb b c = true -> String.leb a c = true.
Proof.
  unfold String.leb. revert b c.
  induction a as [|x a IH]; intros [|y b] [|z c]; simpl; try congruence.
  unfold Ascii.compare.
  destruct (N.compare_spec (N_of_ascii x) (N_of_ascii y)) as [Hxy|Hxy|Hxy],
           (N.compare_spec (N_of_ascii y) (N_of_ascii z)) as [Hyz|Hyz|Hyz],
           (N.compare_spec (N_of_ascii x) (N_of_ascii z)) as [Hxz|Hxz|Hxz];
    try congruence; try lia.
  apply IH.
Qed.

Lemma string_leb_ltb (a b : string) :
  String.leb a b = true -> a <> b -> String.ltb a b = true.
Proof.
  unfold String.leb, String.ltb. intros Hle Hne.
  destruct (String.compare a b) eqn:E; try congruence.
  now apply String.compare_eq_iff in E.
Qed.

(** Two lists sorted for the same antisymmetric order that hold the same
    elements are equal. *)
Lemma sorted_perm_unique {A : Type} (R : A -> A -> Prop) (l l' : list A) :
  (forall a b, R a b -> R b a -> a = b) ->
  StronglySorted R l -> StronglySorted R l' -> Permutation l l' -> l = l'.
Proof.
  intros Hanti. revert l'.
  induction l as [|a l IH]; intros l' Hs Hs' Hp.
  - now apply Permutation_nil in Hp.
  - destruct l' as [|b l'];
      [apply Permutation_sym, Permutation_nil in Hp; discriminate|].
    apply StronglySorted_inv in Hs as [Hs Ha].
    apply StronglySorted_inv in Hs' as [Hs' Hb].
    assert (Hab : a = b).
    { assert (Hin : In a (b :: l'))
        by (eapply Permutation_in; [exact Hp | now left]).
      assert (Hin' : In b (a :: l))
        by (eapply Permutation_in; [apply Permutation_sym, Hp | now left]).
      destruct Hin as [->|Hin]; [reflexivity|].
      destruct Hin' as [->|Hin']; [reflexivity|].
      apply Hanti.
      - eapply Forall_forall in Ha; eauto.
      - eapply Forall_forall in Hb; eauto. }
    subst b. f_equal. apply IH; auto.
    now apply Permutation_cons_inv in Hp.
Qed.

Lemma monthKeys_strongly_sorted (data : JsObject.t (list Product.t)) :
  StronglySorted (fun a b => String.leb a b = true) (monthKeys_of data).
Proof.
  apply Sorted_StronglySorted; [|apply monthKeys_sorted].
  intros a b c. apply string_leb_trans.
Qed.

Lemma monthly_names (orders : list Order.t) (k : string) :
  In k (map fst (monthlyConsolidatedData_of orders)) <->
  In k (map Order.name orders) /\ k <> "__proto__"%string.
Proof.
  pose proof (monthly_get orders k) as Hget.
  destruct (JsObject.get (monthlyConsolidatedData_of orders) k) as [md|] eqn:E.
  - split.
    + intros _. apply monthly_get_key in E as (Hk & order & F & _).
      split; [|exact Hk].
      apply find_some in F as [Hin Hname]. apply String.eqb_eq in Hname.
      rewrite <- Hname. apply in_map. now apply in_rev.
    + intros _. apply JsObjectFacts.get_In in E. now apply (in_map fst) in E.
  - split; intros Hin.
    + now apply JsObjectFacts.get_None in E.
    + exfalso. destruct Hin as [Hin Hk].
      destruct (String.eqb_spec k "__proto__"); [contradiction|].
      apply in_map_iff in Hin as (order & Hname & Hin).
      destruct (find _ (rev orders)) eqn:F; [discriminate|].
      eapply find_none in F; [|apply in_rev in Hin; exact Hin].
      simpl in F. rewrite Hname, String.eqb_refl in F. discriminate.
Qed.

(** X1.  The month keys of the analysis are the names of the orders other
    than ["__proto__"] (an order of that name adds no month), each once,
    in strictly ascending lexicographic order, whatever the order and the
    repetitions of the input. *)
Theorem monthKeys_are_the_sorted_names :
  forall orders : list Order.t,
    let monthKeys := monthKeys_of (monthlyConsolidatedData_of orders) in
    StronglySorted (fun a b => String.ltb a b = true) monthKeys /\
    NoDup monthKeys /\
    (forall k, In k monthKeys <->
               In k (map Order.name orders) /\ k <> "__proto__"%string).
Proof.
  intros orders monthKeys.
  assert (Hnd : NoDup monthKeys).
  { eapply Permutation_NoDup;
      [apply Permutation_sym, monthKeys_perm | apply monthly_keys_NoDup]. }
  split; [|split; [exact Hnd|]].
  - pose proof (monthKeys_strongly_sorted (monthlyConsolidatedData_of orders))
      as Hs. fold monthKeys in Hs.
    induction Hs as [|a l Hs IH Ha]; constructor.
    + apply IH. now inversion Hnd.
    + inversion Hnd as [|? ? Hnot _]; subst.
      apply Forall_forall. intros b Hb.
      apply string_leb_ltb.
      * eapply Forall_forall in Ha; eauto.
      * intros ->. contradiction.
  - intros k. rewrite <- monthly_names. split; intros H.
    + eapply Permutation_in; [apply monthKeys_perm | exact H].
    + eapply Permutation_in; [apply Permutation_sym, monthKeys_perm | exact H].
Qed.

(** ** The products analysed *)

Lemma JsSet_add_NoDup (s : JsSet.t) (x : string) :
  NoDup s -> NoDup (JsSet.add s x).
Proof.
  intros Hnd. unfold JsSet.add, JsSet.has.
  destruct (existsb (String.eqb x) s) eqn:E; [exact Hnd|].
  apply Permutation_NoDup with (x :: s); [apply Permutation_cons_append|].
  constructor; [|exact Hnd].
  intros Hin. apply Bool.not_true_iff_false in E. apply E.
  apply existsb_exists. exists x. split; [exact Hin | apply String.eqb_refl].
Qed.

Lemma productIds_NoDup (data : JsObject.t (list Product.t)) :
  NoDup (productIds_of data).
Proof.
  unfold productIds_of.
  assert (Hmonth : forall md ids, NoDup ids ->
            NoDup (fold_left (fun ids product =>
                     JsSet.add ids (Product.productId product)) md ids)).
  { induction md as [|p md IH]; intros ids Hnd; simpl; [exact Hnd|].
    apply IH. now apply JsSet_add_NoDup. }
  assert (H : forall l ids, NoDup ids ->
            NoDup (fold_left
                     (fun ids monthData =>
                        fold_left (fun ids product =>
                          JsSet.add ids (Product.productId product)) monthData ids)
                     l ids)).
  { induction l as [|md l IH]; intros ids Hnd; simpl; [exact Hnd|].
    apply IH. now apply Hmonth. }
  apply H. constructor.
Qed.

Lemma finalStockStatus_ids (orders : list Order.t) :
  map Product.productId (finalStockStatus_of orders) =
  productIds_of (monthlyConsolidatedData_of orders).
Proof.
  unfold finalStockStatus_of. rewrite map_map.
  erewrite map_ext; [apply map_id | reflexivity].
Qed.

Lemma first_row_Some_iff (k : string) (rows : list Row.t) :
  first_row k rows <> None <-> exists r, In r rows /\ Row.productId r = k.
Proof.
  unfold first_row. split.
  - destruct (find _ rows) as [r|] eqn:F; [intros _ | congruence].
    apply find_some in F as [Hin Hk]. apply String.eqb_eq in Hk. eauto.
  - intros (r & Hin & Hk) Hnone.
    eapply find_none in Hnone; [|exact Hin]. simpl in Hnone.
    rewrite Hk, String.eqb_refl in Hnone. discriminate.
Qed.

(** The ids of the consolidated records of an order are the ids of its
    rows that are not names of inherited members. *)
Lemma consolidate_ids_rows (order : Order.t) (k : string) :
  In k (map Product.productId (consolidate order)) <->
  JsObject.inherited k = false /\
  exists r, In r (rows_of order) /\ Row.productId r = k.
Proof.
  rewrite <- first_row_Some_iff.
  assert (Hperm : In k (map Product.productId (consolidate order)) <->
                  In k (map fst (consolidatedStocks_of (rows_of order)))).
  { split; apply Permutation_in;
      [apply consolidate_ids | apply Permutation_sym, consolidate_ids]. }
  rewrite Hperm.
  pose proof (JsObjectFacts.get_None (consolidatedStocks_of (rows_of order)) k)
    as Hnone.
  rewrite consolidatedStocks_get in Hnone. unfold consolidated_record in Hnone.
  destruct (JsObject.inherited k).
  - split; [|intros [? _]; discriminate].
    intros H. exfalso. now apply (proj1 Hnone).
  - destruct (first_row k (rows_of order)) as [r|].
    + split; [intros _; split; congruence|]. intros _.
      destruct (ListDec.In_dec string_dec k
                  (map fst (consolidatedStocks_of (rows_of order)))) as [H|H];
        [exact H|]. apply Hnone in H. discriminate.
    + split; [|intros [_ ?]; congruence].
      intros H. exfalso. now apply (proj1 Hnone).
Qed.

Lemma monthly_values_get (orders : list Order.t) (monthData : list Product.t) :
  In monthData (JsObject.values (monthlyConsolidatedData_of orders)) <->
  exists k, JsObject.get (monthlyConsolidatedData_of orders) k = Some monthData.
Proof.
  split.
  - intros H.
    eapply Permutation_in in H; [|apply JsObjectFacts.values_perm].
    apply in_map_iff in H as ([k md] & Hmd & Hin). simpl in Hmd. subst md.
    exists k. apply JsObjectFacts.In_get; [apply monthly_keys_NoDup | exact Hin].
  - intros (k & Hk). apply JsObjectFacts.get_In in Hk.
    eapply Permutation_in;
      [apply Permutation_sym, JsObjectFacts.values_perm|].
    change monthData with (snd (k, monthData)). now apply in_map.
Qed.

(** The months of the data hold the records of the orders that are the
    last of their name, a name other than ["__proto__"]. *)
Lemma monthly_values (orders : list Order.t) (monthData : list Product.t) :
  In monthData (JsObject.values (monthlyConsolidatedData_of orders)) <->
  exists order,
    last_with_name orders order /\
    Order.name order <> "__proto__"%string /\
    monthData = consolidate order.
Proof.
  rewrite monthly_values_get. unfold last_with_name. split.
  - intros (k & Hk). apply monthly_get_key in Hk as (Hproto & order & F & ->).
    exists order.
    pose proof F as F'. apply find_some in F' as [_ Hname].
    apply String.eqb_eq in Hname. rewrite Hname. auto.
  - intros (order & Hlast & Hproto & ->). exists (Order.name order).
    rewrite monthly_get, Hlast.
    destruct (String.eqb_spec (Order.name order) "__proto__");
      [contradiction | reflexivity].
Qed.

(** X2.  The function returns exactly one record per product id. *)
Theorem one_record_per_product :
  forall orders : list Order.t,
    NoDup (map Product.productId (finalStockStatus_of orders)).
Proof.
  intros orders. rewrite finalStockStatus_ids. apply productIds_NoDup.
Qed.

(** X3.  A product id has a record exactly when it is not the name of a
    member inherited from [Object.prototype] and some row carries it in an
    order that is the last of its month name, a name other than
    ["__proto__"]: a product of no row never appears, and neither does a
    product that only occurs in orders replaced by a later order of the
    same name. *)
Theorem products_analysed :
  forall (orders : list Order.t) (productId : string),
    In productId (map Product.productId (finalStockStatus_of orders)) <->
    JsObject.inherited productId = false /\
    exists order,
      last_with_name orders order /\
      Order.name order <> "__proto__"%string /\
      exists r, In r (rows_of order) /\ Row.productId r = productId.
Proof.
  intros orders productId.
  rewrite finalStockStatus_ids, productIds_In. split.
  - intros (md & Hmd & Hin).
    apply monthly_values in Hmd as (order & Hlast & Hproto & ->).
    apply consolidate_ids_rows in Hin as [Hinh Hrow]. eauto 6.
  - intros (Hinh & order & Hlast & Hproto & Hrow).
    exists (consolidate order). split.
    + apply monthly_values. eauto.
    + now apply consolidate_ids_rows.
Qed.

(** No record carries the name of an inherited member as product id. *)
Lemma analysed_not_inherited (orders : list Order.t) (productId : string) :
  In productId (productIds_of (monthlyConsolidatedData_of orders)) ->
  JsObject.inherited productId = false.
Proof.
  intros H. apply productIds_In in H as (md & Hmd & Hin).
  apply monthly_values in Hmd as (order & _ & _ & ->).
  now apply consolidate_ids_rows in Hin as [Hinh _].
Qed.

(** ** The peak *)

Lemma series_In (data : JsObject.t (list Product.t)) (productId : string)
    (s : Z) :
  In (Some s) (series_of data productId) <->
  exists k, In k (monthKeys_of data) /\ stock_in data productId k = Some s.
Proof.
  unfold series_of. rewrite in_map_iff. split; intros (k & H1 & H2); eauto.
Qed.

(** A product that is analysed is present in some month. *)
Lemma analysed_present (orders : list Order.t) (productId : string) :
  In productId (productIds_of (monthlyConsolidatedData_of orders)) ->
  exists s, In (Some s) (series_of (monthlyConsolidatedData_of orders) productId).
Proof.
  set (data := monthlyConsolidatedData_of orders).
  intros H. apply productIds_In in H as (md & Hmd & Hid).
  eapply Permutation_in in Hmd; [|apply JsObjectFacts.values_perm].
  apply in_map_iff in Hmd as ([k md'] & Heq & Hin). simpl in Heq. subst md'.
  assert (Hget : JsObject.get data k = Some md)
    by (apply JsObjectFacts.In_get; [apply monthly_keys_NoDup | exact Hin]).
  assert (Hk : In k (monthKeys_of data)).
  { eapply Permutation_in; [apply Permutation_sym, monthKeys_perm|].
    now apply (in_map fst) in Hin. }
  apply in_map_iff in Hid as (q & Hq & Hqin).
  destruct (find_product md productId) as [q'|] eqn:F.
  - exists (Product.stockStatus q'). apply series_In. exists k.
    split; [exact Hk|]. unfold stock_in, month_data. now rewrite Hget, F.
  - unfold find_product in F. eapply find_none in F; [|exact Hqin].
    simpl in F. rewrite Hq, String.eqb_refl in F. discriminate.
Qed.

Lemma record_peak (orders : list Order.t) (p : Product.t) :
  let data := monthlyConsolidatedData_of orders in
  In p (finalStockStatus_of orders) ->
      let series := series_of data (Product.productId p) in
      0 <= Product.stockStatus p /\
      (forall s, In (Some s) series -> s <= Product.stockStatus p) /\
      (Product.stockStatus p = 0 \/ In (Some (Product.stockStatus p)) series) /\
      (exists s, In (Some s) series).
Proof.
  intros data Hin.
  apply in_map_iff in Hin as (pid & <- & Hpid).
  change (Product.productId (analyze data pid)) with pid.
  change (Product.stockStatus (analyze data pid))
    with (initialStock_of data (monthKeys_of data) pid).
  cbv zeta. repeat split.
  - apply initialStock_nonneg.
  - intros s Hs. apply series_In in Hs as (k & Hk & Hs).
    eapply initialStock_upper; eauto.
  - destruct (initialStock_attained data pid) as [H|(k & Hk & Hs)];
      [now left | right]. apply series_In. eauto.
  - now apply analysed_present.
Qed.

(** X4.  The stock status of a record is the peak of the product: it is
    at least 0 and at least the stock of every month, and it is 0 or the
    stock of some month; the product is present in at least one month. *)
Theorem stockStatus_is_the_peak :
  forall orders : list Order.t,
    let data := monthlyConsolidatedData_of orders in
    Forall
      (fun p =>
         let series := series_of data (Product.productId p) in
         0 <= Product.stockStatus p /\
         (forall s, In (Some s) series -> s <= Product.stockStatus p) /\
         (Product.stockStatus p = 0 \/ In (Some (Product.stockStatus p)) series) /\
         (exists s, In (Some s) series))
      (finalStockStatus_of orders).
Proof.
  intros orders data. apply Forall_forall. intros p Hin.
  now apply record_peak.
Qed.

(** ** The sales *)

Lemma spec_walk_bounds (l : list (option Z)) (total valid prev : Z) :
  let r := fold_left spec_walk_step l (total, valid, prev) in
  valid <= snd (fst r) <= valid + Z.of_nat (List.length l) /\
  snd (fst r) - valid <= fst (fst r) - total /\
  (snd (fst r) = valid -> fst (fst r) = total).
Proof.
  revert total valid prev.
  induction l as [|[s|] l IH]; intros total valid prev;
    cbn [fold_left spec_walk_step List.length].
  - simpl. lia.
  - destruct (Z.gtb_spec (prev - s) 0) as [Hgt|Hle].
    + specialize (IH (total + (prev - s)) (valid + 1) s). cbv zeta in *. lia.
    + specialize (IH total valid s). cbv zeta in *. lia.
  - specialize (IH total valid prev). cbv zeta in *. lia.
Qed.

Lemma record_sales_bounds (orders : list Order.t) (p : Product.t) :
  let data := monthlyConsolidatedData_of orders in
  In p (finalStockStatus_of orders) ->
      0 <= Product.months p <= Z.of_nat (List.length (monthKeys_of data)) - 1 /\
      Product.months p <= Product.totalSales p /\
      (Product.months p = 0 -> Product.totalSales p = 0).
Proof.
  intros data Hin.
  apply in_map_iff in Hin as (pid & <- & Hpid).
  destruct (analyze_sales data pid) as (_ & _ & Hwalk & _).
  unfold spec_walk in Hwalk.
  pose proof (spec_walk_bounds (tl (series_of data pid)) 0 0
                (baseline_of (initialStock_of data (monthKeys_of data) pid)
                   (series_of data pid))) as Hb.
  cbv zeta in Hb. rewrite <- Hwalk in Hb. cbn [fst snd] in Hb.
  rewrite length_tl, series_length in Hb.
  apply productIds_months in Hpid. fold data in Hpid |- *.
  destruct (monthKeys_of data) as [|k ks]; [congruence|].
  cbn [List.length] in *. lia.
Qed.

(** X5.  In every record the number of valid months is between 0 and the
    number of months minus one, the total sales are not negative, and the
    total sales are 0 exactly when no month is valid. *)
Theorem sales_bounds :
  forall orders : list Order.t,
    let data := monthlyConsolidatedData_of orders in
    Forall
      (fun p =>
         0 <= Product.months p <= Z.of_nat (List.length (monthKeys_of data)) - 1 /\
         0 <= Product.totalSales p /\
         (Product.months p = 0 <-> Product.totalSales p = 0))
      (finalStockStatus_of orders).
Proof.
  intros orders data. apply Forall_forall. intros p Hin.
  destruct (record_sales_bounds orders p Hin) as (Hm & Hmt & Hzero).
  fold data in Hm. repeat split; lia.
Qed.

Lemma spec_walk_skips_absent (l : list (option Z)) (st : Z * Z * Z) :
  fold_left spec_walk_step l st =
  fold_left spec_walk_step (map Some (present_stocks l)) st.
Proof.
  revert st. induction l as [|[s|] l IH]; intros st; simpl.
  - reflexivity.
  - apply IH.
  - destruct st as [[total valid] prev]. apply IH.
Qed.

(** X6.  The months after the first in which a product is absent change
    nothing: the total sales and the valid months of its record are those
    of the walk over the stocks of the months in which it is present, in
    chronological order. *)
Theorem absent_months_are_skipped :
  forall orders : list Order.t,
    let data := monthlyConsolidatedData_of orders in
    Forall
      (fun p =>
         let series := series_of data (Product.productId p) in
         (Product.totalSales p, Product.months p) =
         fst (fold_left spec_walk_step
                (map Some (present_stocks (tl series)))
                (0, 0, baseline_of (Product.stockStatus p) series)))
      (finalStockStatus_of orders).
Proof.
  intros orders data. apply Forall_forall. intros p Hin.
  apply in_map_iff in Hin as (pid & <- & _).
  destruct (analyze_sales data pid) as (_ & _ & Hwalk & _).
  cbv zeta. rewrite <- spec_walk_skips_absent. exact Hwalk.
Qed.

(** ** The leftover *)

Lemma nth_error_last {A : Type} (l : list A) (n : nat) (x d : A) :
  nth_error l n = Some x -> List.length l = S n -> last l d = x.
Proof.
  revert n. induction l as [|y l IH]; intros n Hn Hlen; [discriminate|].
  destruct n as [|n].
  - destruct l; [|discriminate]. now injection Hn.
  - destruct l as [|z l]; [discriminate|].
    change (last (z :: l) d = x). apply (IH n); [exact Hn|].
    simpl in Hlen |- *. lia.
Qed.

Lemma record_leftOver (orders : list Order.t) (p : Product.t) :
  let data := monthlyConsolidatedData_of orders in
  In p (finalStockStatus_of orders) ->
      let series := series_of data (Product.productId p) in
      Product.leftOver p =
      match last series None with
      | Some s =>
          if (List.length series =? 1)%nat then s
          else if snd (spec_walk (baseline_of (Product.stockStatus p) series)
                         (removelast series)) - s >? 0
               then s else 0
      | None => 0
      end.
Proof.
  intros data Hin.
  apply in_map_iff in Hin as (pid & <- & Hpid). fold data in Hpid |- *.
  change (Product.productId (analyze data pid)) with pid.
  change (Product.stockStatus (analyze data pid))
    with (initialStock_of data (monthKeys_of data) pid).
  change (Product.leftOver (analyze data pid))
    with (leftOver (walk data (monthKeys_of data) pid
                      (initialStock_of data (monthKeys_of data) pid))).
  cbv zeta.
  apply productIds_months in Hpid.
  pose proof (series_length data pid) as Hlen.
  destruct (List.length (monthKeys_of data)) as [|n] eqn:Hn;
    [destruct (monthKeys_of data); [congruence | discriminate]|].
  rewrite (leftOver_last_month data pid n Hn).
  pose proof (series_nth data pid n ltac:(lia)) as Hnth.
  rewrite (nth_error_last _ n _ None Hnth Hlen), Hlen.
  destruct (stock_in data pid (nth n (monthKeys_of data) EmptyString))
    as [s|]; [|reflexivity].
  destruct n as [|m]; [reflexivity|].
  cbn [Nat.eqb].
  pose proof (walk_upto_spec data pid m ltac:(lia)) as Hspec.
  unfold walk_view in Hspec.
  apply (f_equal snd) in Hspec. cbn [snd] in Hspec. rewrite Hspec.
  unfold spec_walk.
  replace (tl (removelast (series_of data pid)))
    with (firstn m (tl (series_of data pid))); [reflexivity|].
  rewrite removelast_firstn_len, Hlen.
  destruct (series_of data pid); [discriminate | reflexivity].
Qed.

(** X8.  The leftover of a record is the stock of the chronologically last
    month exactly when the product is present there and either there is a
    single month or that month is a sales month of the walk (its stock is
    below the previous stock the walk holds); it is 0 in every other
    case, in particular when the product is absent from the last month. *)
Theorem leftOver_by_last_month :
  forall orders : list Order.t,
    let data := monthlyConsolidatedData_of orders in
    Forall
      (fun p =>
         let series := series_of data (Product.productId p) in
         Product.leftOver p =
         match last series None with
         | Some s =>
             if (List.length series =? 1)%nat then s
             else if snd (spec_walk (baseline_of (Product.stockStatus p) series)
                            (removelast series)) - s >? 0
                  then s else 0
         | None => 0
         end)
      (finalStockStatus_of orders).
Proof.
  intros orders data. apply Forall_forall. intros p Hin.
  now apply record_leftOver.
Qed.

(** ** The derived fields *)

Lemma toFixed2_zero (a : Q) : toFixed2 (binary64 (inject_Z 0 / a)) = 0%Q.
Proof. reflexivity. Qed.

Lemma record_derived (orders : list Order.t) (p : Product.t) :
  In p (finalStockStatus_of orders) ->
  (Product.availability p = "Available"%string <-> 0 < Product.leftOver p) /\
  (Product.availability p = "Out of Stock"%string <-> Product.leftOver p <= 0) /\
  (Product.leftOver p = 0 -> Product.enoughForMonths p = 0%Q) /\
  (Product.months p = 0 ->
   Product.average p = 0%Q /\ Product.enoughForMonths p = 0%Q).
Proof.
  intros Hin.
  apply in_map_iff in Hin as (pid & <- & _).
  set (data := monthlyConsolidatedData_of orders) in *.
  destruct (analyze_sales data pid) as (_ & _ & _ & Hzero).
  revert Hzero. unfold analyze.
  cbn [Product.availability Product.leftOver Product.enoughForMonths
       Product.months Product.average Product.totalSales].
  set (st := walk data (monthKeys_of data) pid
               (initialStock_of data (monthKeys_of data) pid)).
  intros Hzero.
  split; [|split; [|split]].
  - destruct (Z.gtb_spec (leftOver st) 0) as [Hgt|Hle]; split; intros H;
      try reflexivity; try discriminate; lia.
  - destruct (Z.gtb_spec (leftOver st) 0) as [Hgt|Hle]; split; intros H;
      try reflexivity; try discriminate; lia.
  - intros ->. destruct (Qgtb _ 0); [apply toFixed2_zero | reflexivity].
  - exact Hzero.
Qed.

(** X9.  In every record the availability is "Available" exactly when the
    leftover is positive and "Out of Stock" otherwise; a leftover of 0
    gives enoughForMonths = 0; and without a valid month the average and
    enoughForMonths are 0: no division by zero takes place. *)
Theorem derived_fields :
  forall orders : list Order.t,
    Forall
      (fun p =>
         (Product.availability p = "Available"%string <-> 0 < Product.leftOver p) /\
         (Product.availability p = "Out of Stock"%string <-> Product.leftOver p <= 0) /\
         (Product.leftOver p = 0 -> Product.enoughForMonths p = 0%Q) /\
         (Product.months p = 0 ->
          Product.average p = 0%Q /\ Product.enoughForMonths p = 0%Q))
      (finalStockStatus_of orders).
Proof.
  intros orders. apply Forall_forall. intros p Hin.
  now apply (record_derived orders).
Qed.

(** X10.  The product name of a record comes from the chronologically
    first month only: it is the name of the first row that carries the
    product id in the order of that month (the last order of that name),
    and the empty string when the product has no row there, whatever the
    later months say. *)
Theorem productName_from_first_month :
  forall orders : list Order.t,
    let data := monthlyConsolidatedData_of orders in
    Forall
      (fun p =>
         Product.productName p =
         match find (fun o => String.eqb (Order.name o)
                                (hd EmptyString (monthKeys_of data)))
                    (rev orders) with
         | Some order =>
             match first_row (Product.productId p) (rows_of order) with
             | Some r => Row.productName r
             | None => EmptyString
             end
         | None => EmptyString
         end)
      (finalStockStatus_of orders).
Proof.
  intros orders data. apply Forall_forall. intros p Hin.
  apply in_map_iff in Hin as (pid & <- & Hpid). fold data in Hpid |- *.
  unfold analyze. cbn [Product.productName Product.productId].
  replace (nth 0 (monthKeys_of data) EmptyString)
    with (hd EmptyString (monthKeys_of data))
    by (destruct (monthKeys_of data); reflexivity).
  pose proof (analysed_not_inherited orders pid Hpid) as Hinh.
  pose proof (productIds_months data pid Hpid) as Hne.
  assert (Hk : In (hd EmptyString (monthKeys_of data)) (monthKeys_of data))
    by (destruct (monthKeys_of data); [congruence | now left]).
  apply month_data_own_key in Hk.
  destruct (JsObject.get data (hd EmptyString (monthKeys_of data)))
    as [md|] eqn:E; [|congruence].
  unfold month_data. rewrite E.
  apply monthly_get_key in E as (_ & order & F & ->). rewrite F.
  rewrite find_product_consolidate. unfold consolidated_record.
  rewrite Hinh. destruct (first_row pid (rows_of order)); reflexivity.
Qed.

(** ** The order of the input *)

Lemma find_name_perm (l l' : list Order.t) (k : string) :
  NoDup (map Order.name l) -> Permutation l l' ->
  find (fun o => String.eqb (Order.name o) k) l =
  find (fun o => String.eqb (Order.name o) k) l'.
Proof.
  intros Hnd Hp.
  destruct (find _ l) as [a|] eqn:E, (find _ l') as [b|] eqn:E'.
  - apply find_some in E as [Ha Hka], E' as [Hb Hkb].
    apply String.eqb_eq in Hka, Hkb. f_equal.
    apply (NoDup_map_inj Order.name l); auto; [|congruence].
    eapply Permutation_in; [apply Permutation_sym, Hp | exact Hb].
  - apply find_some in E as [Ha Hka].
    eapply find_none in E'; [|eapply Permutation_in; [exact Hp | exact Ha]].
    simpl in E'. congruence.
  - apply find_some in E' as [Hb Hkb].
    eapply find_none in E;
      [|eapply Permutation_in; [apply Permutation_sym, Hp | exact Hb]].
    simpl in E. congruence.
  - reflexivity.
Qed.

Lemma monthly_get_perm (orders orders' : list Order.t) (k : string) :
  NoDup (map Order.name orders) -> Permutation orders orders' ->
  JsObject.get (monthlyConsolidatedData_of orders) k =
  JsObject.get (monthlyConsolidatedData_of orders') k.
Proof.
  intros Hnd Hp. rewrite !monthly_get.
  destruct (String.eqb k "__proto__"); [reflexivity|]. f_equal.
  apply find_name_perm.
  - rewrite map_rev. now apply NoDup_rev.
  - eapply perm_trans; [apply Permutation_sym, Permutation_rev|].
    eapply perm_trans; [exact Hp | apply Permutation_rev].
Qed.

Lemma fold_left_ext_in {A B : Type} (f g : A -> B -> A) (l : list B) (a : A) :
  (forall x y, f x y = g x y) -> fold_left f l a = fold_left g l a.
Proof.
  intros H. revert a. induction l as [|y l IH]; intros a; simpl;
    [reflexivity | now rewrite H, IH].
Qed.

(** The record of a product depends on the data through the month keys
    and the lookup of each month only. *)
Lemma analyze_ext (data data' : JsObject.t (list Product.t)) (productId : string) :
  monthKeys_of data = monthKeys_of data' ->
  (forall k, JsObject.get data k = JsObject.get data' k) ->
  analyze data productId = analyze data' productId.
Proof.
  intros Hkeys Hget.
  assert (Hmonth : forall k, month_data data k = month_data data' k)
    by (intros k; unfold month_data; now rewrite Hget).
  assert (Hinit : forall mk, initialStock_of data mk productId
                             = initialStock_of data' mk productId).
  { intros mk. unfold initialStock_of. apply fold_left_ext_in.
    intros x k. now rewrite Hmonth. }
  assert (Hwalk : forall mk init, walk data mk productId init
                                  = walk data' mk productId init).
  { intros mk init. unfold walk. apply fold_left_ext_in.
    intros st i. unfold walk_body. now rewrite Hmonth. }
  unfold analyze. rewrite <- Hkeys, <- Hinit, <- Hwalk, <- Hmonth. reflexivity.
Qed.

Lemma monthKeys_In_get (data : JsObject.t (list Product.t)) (k : string) :
  In k (monthKeys_of data) <-> JsObject.get data k <> None.
Proof.
  split.
  - apply month_data_own_key.
  - intros H.
    eapply Permutation_in; [apply Permutation_sym, monthKeys_perm|].
    destruct (ListDec.In_dec string_dec k (map fst data)) as [Hin|Hnot];
      [exact Hin|]. now apply JsObjectFacts.get_None in Hnot.
Qed.

(** The records returned depend on the orders through the lookup of each
    month name only. *)
Lemma finalStockStatus_by_get (orders orders' : list Order.t) :
  (forall k, JsObject.get (monthlyConsolidatedData_of orders) k =
             JsObject.get (monthlyConsolidatedData_of orders') k) ->
  Permutation (finalStockStatus_of orders) (finalStockStatus_of orders').
Proof.
  intros Hget. unfold finalStockStatus_of. cbv zeta.
  set (data := monthlyConsolidatedData_of orders) in *.
  set (data' := monthlyConsolidatedData_of orders') in *.
  assert (Hnd : forall o, NoDup (monthKeys_of (monthlyConsolidatedData_of o))).
  { intros o. eapply Permutation_NoDup;
      [apply Permutation_sym, monthKeys_perm | apply monthly_keys_NoDup]. }
  assert (Hkeys : monthKeys_of data = monthKeys_of data').
  { apply (sorted_perm_unique (fun a b => String.leb a b = true)).
    - apply String.leb_antisym.
    - apply monthKeys_strongly_sorted.
    - apply monthKeys_strongly_sorted.
    - apply NoDup_Permutation; try apply Hnd.
      intros k. now rewrite !monthKeys_In_get, Hget. }
  rewrite (map_ext (analyze data) (analyze data'))
    by (intros pid; now apply analyze_ext).
  apply Permutation_map.
  apply NoDup_Permutation; try apply productIds_NoDup.
  intros pid. rewrite !productIds_In.
  split; intros (md & Hmd & Hin); exists md; (split; [|exact Hin]);
    apply monthly_values_get in Hmd as (k & Hk); apply monthly_values_get;
    exists k; [rewrite <- Hget | rewrite Hget]; exact Hk.
Qed.

(** X11.  The function restores the chronological order itself: when no
    two orders carry the same month name, the records returned do not
    depend on the order in which the orders arrive (only their order in
    the returned list may change). *)
Theorem input_order_is_irrelevant :
  forall orders orders' : list Order.t,
    NoDup (map Order.name orders) ->
    Permutation orders orders' ->
    Permutation (finalStockStatus_of orders) (finalStockStatus_of orders').
Proof.
  intros orders orders' Hnd Hp. apply finalStockStatus_by_get.
  intros k. now apply monthly_get_perm.
Qed.

Lemma input_order_is_irrelevant_witness :
  Permutation (finalStockStatus_of flat_end_series)
              (finalStockStatus_of (rev flat_end_series)).
Proof.
  apply input_order_is_irrelevant.
  - repeat constructor; simpl; intuition discriminate.
  - apply Permutation_rev.
Defined.

(** ** Orders that share a month name *)

Lemma find_app_first {A : Type} (f : A -> bool) (l1 l2 : list A) :
  find f (l1 ++ l2) =
  match find f l1 with
  | Some x => Some x
  | None => find f l2
  end.
Proof.
  induction l1 as [|x l1 IH]; simpl; [reflexivity|].
  destruct (f x); [reflexivity | exact IH].
Qed.

(** X13.  When a later order carries the same month name, an order is
    ignored altogether: the records returned are those of the input
    without it. *)
Theorem replaced_order_is_ignored :
  forall (before after : list Order.t) (order : Order.t),
    In (Order.name order) (map Order.name after) ->
    Permutation (finalStockStatus_of (before ++ order :: after))
                (finalStockStatus_of (before ++ after)).
Proof.
  intros before after order Hin. apply finalStockStatus_by_get. intros k.
  rewrite !monthly_get.
  destruct (String.eqb k "__proto__"); [reflexivity|]. f_equal.
  rewrite !rev_app_distr. cbn [rev]. rewrite <- app_assoc, !find_app_first.
  destruct (find _ (rev after)) as [o|] eqn:F; [reflexivity|].
  cbn [app find].
  destruct (String.eqb_spec (Order.name order) k) as [Hk|Hk]; [|reflexivity].
  exfalso. apply in_map_iff in Hin as (o & Ho & Hoin).
  eapply find_none in F; [|apply in_rev in Hoin; exact Hoin].
  simpl in F. rewrite Ho, Hk, String.eqb_refl in F. discriminate.
Qed.

Lemma replaced_order_is_ignored_witness :
  Permutation
    (finalStockStatus_of
       ([month "2024-01" [row "A" 9]]
          ++ month "2024-02" [row "B" 1] :: [month "2024-02" [row "A" 4]]))
    (finalStockStatus_of
       ([month "2024-01" [row "A" 9]] ++ [month "2024-02" [row "A" 4]])).
Proof.
  apply replaced_order_is_ignored. left. reflexivity.
Defined.

(** ** Orders without rows *)

(** X14.  An order whose rows are not an array is not an error: when it
    is the last order of its name, a name other than ["__proto__"], its
    name is a month of the series, in which every product is absent. *)
Theorem order_without_rows_is_an_empty_month :
  forall (orders : list Order.t) (order : Order.t) (productId : string),
    let data := monthlyConsolidatedData_of orders in
    last_with_name orders order ->
    Order.name order <> "__proto__"%string ->
    Order.rows order = None ->
    In (Order.name order) (monthKeys_of data) /\
    JsObject.get data (Order.name order) = Some [] /\
    stock_in data productId (Order.name order) = None.
Proof.
  intros orders order productId data Hlast Hproto Hrows.
  assert (Hget : JsObject.get data (Order.name order) = Some []).
  { unfold data. rewrite monthly_get. unfold last_with_name in Hlast.
    destruct (String.eqb_spec (Order.name order) "__proto__");
      [contradiction|].
    rewrite Hlast. cbn [option_map]. unfold consolidate, rows_of.
    now rewrite Hrows. }
  split; [|split; [exact Hget|]].
  - apply monthKeys_In_get. congruence.
  - unfold stock_in, month_data. now rewrite Hget.
Qed.

Lemma order_without_rows_is_an_empty_month_witness :
  let orders := [month "2024-01" [row "A" 9]; Order.mk "2024-02" None] in
  let data := monthlyConsolidatedData_of orders in
  In "2024-02"%string (monthKeys_of data) /\
  JsObject.get data "2024-02" = Some [] /\
  stock_in data "A" "2024-02" = None.
Proof.
  intros orders data.
  apply (order_without_rows_is_an_empty_month orders (Order.mk "2024-02" None) "A");
    [reflexivity | discriminate | reflexivity].
Defined.

(** ** The sign of the stock *)

Lemma rows_stock_nonneg (productId : string) (rows : list Row.t) :
  (forall r, In r rows -> 0 <= Row.stockStatus r) ->
  0 <= rows_stock productId rows.
Proof.
  unfold rows_stock. induction rows as [|r rows IH]; intros H; simpl; [lia|].
  assert (Hr : 0 <= Row.stockStatus r) by (apply H; now left).
  assert (Hrest : forall x, In x rows -> 0 <= Row.stockStatus x)
    by (intros x Hx; apply H; now right).
  specialize (IH Hrest).
  destruct (String.eqb (Row.productId r) productId); simpl; lia.
Qed.

(** The stock of a product in a month is the total stock of its rows in
    the order that the month holds. *)
Lemma stock_in_rows (orders : list Order.t) (productId k : string) (s : Z) :
  stock_in (monthlyConsolidatedData_of orders) productId k = Some s ->
  exists order,
    In order orders /\ Order.name order = k /\
    last_with_name orders order /\
    s = rows_stock productId (rows_of order).
Proof.
  unfold stock_in, month_data. rewrite monthly_get.
  destruct (String.eqb k "__proto__"); [discriminate|].
  destruct (find _ (rev orders)) as [order|] eqn:F; cbn [option_map];
    [|discriminate].
  rewrite find_product_consolidate. unfold consolidated_record.
  destruct (JsObject.inherited productId); [discriminate|].
  destruct (first_row productId (rows_of order)); [|discriminate].
  cbn [option_map Product.stockStatus]. intros [= <-].
  pose proof F as F'. apply find_some in F' as [Hin Hk].
  apply String.eqb_eq in Hk. exists order.
  repeat split; [now apply in_rev | exact Hk |].
  unfold last_with_name. now rewrite Hk.
Qed.

(** X15.  When no row has a negative stock, every record has a leftover
    between 0 and its stock status. *)
Theorem nonnegative_rows_nonnegative_leftOver :
  forall orders : list Order.t,
    (forall order r, In order orders -> In r (rows_of order) ->
                     0 <= Row.stockStatus r) ->
    Forall (fun p => 0 <= Product.leftOver p <= Product.stockStatus p)
           (finalStockStatus_of orders).
Proof.
  intros orders Hrows. apply Forall_forall. intros p Hin.
  split.
  - apply in_map_iff in Hin as (pid & <- & _).
    set (data := monthlyConsolidatedData_of orders).
    destruct (leftOver_from_series data pid (List.length (monthKeys_of data))
                (le_n _)) as [H0|(k & _ & Hs)].
    + change (Product.leftOver (analyze data pid))
        with (leftOver (walk data (monthKeys_of data) pid
                          (initialStock_of data (monthKeys_of data) pid))).
      unfold walk. rewrite H0. lia.
    + apply stock_in_rows in Hs as (order & Hin & _ & _ & Hs).
      change (Product.leftOver (analyze data pid))
        with (leftOver (walk data (monthKeys_of data) pid
                          (initialStock_of data (monthKeys_of data) pid))).
      unfold walk. rewrite Hs. apply rows_stock_nonneg. eauto.
  - apply in_map_iff in Hin as (pid & <- & _).
    apply analyze_leftOver_le_peak.
Qed.

Lemma nonnegative_rows_nonnegative_leftOver_witness :
  Forall (fun p => 0 <= Product.leftOver p <= Product.stockStatus p)
         (finalStockStatus_of falling_series).
Proof.
  apply nonnegative_rows_nonnegative_leftOver.
  intros order r Hin Hr. simpl in Hin.
  repeat (destruct Hin as [<-|Hin]; [destruct Hr as [<-|[]]; simpl; lia|]).
  destruct Hin.
Defined.

(** ** A single month *)

(** X16.  With a single month there is nothing to compare: every record
    has no valid month, no sales, average and enoughForMonths 0, its
    leftover is the stock of the product in that month, and its stock
    status is that stock, or 0 when it is negative. *)
Theorem single_month_records :
  forall orders : list Order.t,
    let data := monthlyConsolidatedData_of orders in
    List.length (monthKeys_of data) = 1%nat ->
    Forall
      (fun p =>
         Product.months p = 0 /\ Product.totalSales p = 0 /\
         Product.average p = 0%Q /\ Product.enoughForMonths p = 0%Q /\
         series_of data (Product.productId p) = [Some (Product.leftOver p)] /\
         Product.stockStatus p = Z.max 0 (Product.leftOver p))
      (finalStockStatus_of orders).
Proof.
  intros orders data Hone.
  apply Forall_forall. intros p Hin.
  pose proof (record_sales_bounds orders p Hin) as (Hm & _ & Ht).
  pose proof (record_derived orders p Hin) as (_ & _ & _ & Hzero).
  pose proof (record_leftOver orders p Hin) as Hleft.
  pose proof (record_peak orders p Hin) as (Hnonneg & Hupper & Hattained & (s & Hs)).
  cbv zeta in Hm, Hleft, Hupper, Hattained, Hs.
  fold data in Hm, Hleft, Hupper, Hattained, Hs.
  rewrite Hone in Hm.
  assert (Hmonths : Product.months p = 0) by lia.
  pose proof (series_length data (Product.productId p)) as Hlen.
  rewrite Hone in Hlen.
  destruct (series_of data (Product.productId p)) as [|o [|o' l]];
    try discriminate Hlen.
  destruct Hs as [->|[]]. cbn [last List.length Nat.eqb] in Hleft.
  destruct (Hzero Hmonths) as [Havg Henough].
  repeat split; auto.
  - now rewrite Hleft.
  - rewrite Hleft. specialize (Hupper s (or_introl eq_refl)).
    destruct Hattained as [H0|[[= H]|[]]]; lia.
Qed.

Lemma single_month_records_witness :
  let orders := [month "2024-01" [row "A" 9; row "B" 2; row "A" 1]] in
  let data := monthlyConsolidatedData_of orders in
  Forall
    (fun p =>
       Product.months p = 0 /\ Product.totalSales p = 0 /\
       Product.average p = 0%Q /\ Product.enoughForMonths p = 0%Q /\
       series_of data (Product.productId p) = [Some (Product.leftOver p)] /\
       Product.stockStatus p = Z.max 0 (Product.leftOver p))
    (finalStockStatus_of orders).
Proof.
  intros orders data. apply (single_month_records orders). reflexivity.
Defined.

(** ** Rows with distinct product ids *)

Lemma filter_unique {A : Type} (f : A -> string) (l : list A) (r : A) :
  NoDup (map f l) -> In r l ->
  filter (fun x => String.eqb (f x) (f r)) l = [r].
Proof.
  induction l as [|x l IH]; simpl; [tauto|].
  intros Hnd Hin. inversion Hnd as [|? ? Hnot Hnd']; subst.
  destruct Hin as [->|Hin].
  - rewrite String.eqb_refl. f_equal.
    clear IH Hnd Hnd'. induction l as [|y l IH]; [reflexivity|]. simpl.
    destruct (String.eqb_spec (f y) (f r)) as [Hy|Hy].
    + exfalso. apply Hnot. left. exact Hy.
    + apply IH. intros H. apply Hnot. now right.
  - destruct (String.eqb_spec (f x) (f r)) as [Hx|Hx].
    + exfalso. apply Hnot. rewrite Hx. now apply in_map.
    + now apply IH.
Qed.

(** X17.  When the rows of an order carry pairwise distinct product ids,
    none of them the name of a member inherited from [Object.prototype],
    consolidation changes nothing: there are as many records as rows, and
    the record of each row carries its id, name and stock. *)
Theorem distinct_rows_are_kept :
  forall order : Order.t,
    NoDup (map Row.productId (rows_of order)) ->
    (forall r, In r (rows_of order) ->
               JsObject.inherited (Row.productId r) = false) ->
    List.length (consolidate order) = List.length (rows_of order) /\
    (forall r, In r (rows_of order) ->
       find_product (consolidate order) (Row.productId r) =
       Some (Product.mk (Row.productId r) (Row.productName r)
               (Row.stockStatus r) 0 "Unknown" 0%Q 0 0 0%Q)).
Proof.
  intros order Hnd Hinh. split.
  - rewrite <- (length_map Product.productId),
            <- (length_map Row.productId (rows_of order)).
    apply Permutation_length, NoDup_Permutation;
      [apply consolidate_NoDup | exact Hnd|].
    intros k. rewrite consolidate_ids_rows, in_map_iff. split.
    + intros (_ & r & H1 & H2). eauto.
    + intros (r & H1 & H2). split; [|eauto].
      rewrite <- H1. now apply Hinh.
  - intros r Hin. rewrite find_product_consolidate.
    unfold consolidated_record, first_row, rows_stock.
    rewrite (Hinh r Hin), (filter_unique Row.productId _ r Hnd Hin).
    destruct (find _ (rows_of order)) as [r'|] eqn:F.
    + apply find_some in F as [Hin' Hid]. apply String.eqb_eq in Hid.
      assert (r' = r) by (eapply NoDup_map_inj; eauto). subst r'.
      simpl. now rewrite Z.add_0_r.
    + eapply find_none in F; [|exact Hin]. simpl in F.
      rewrite String.eqb_refl in F. discriminate.
Qed.

Lemma distinct_rows_are_kept_witness :
  let order := month "2024-01" [row "A" 9; row "B" 2] in
  List.length (consolidate order) = List.length (rows_of order) /\
  (forall r, In r (rows_of order) ->
     find_product (consolidate order) (Row.productId r) =
     Some (Product.mk (Row.productId r) (Row.productName r)
             (Row.stockStatus r) 0 "Unknown" 0%Q 0 0 0%Q)).
Proof.
  intros order. apply (distinct_rows_are_kept order).
  - repeat constructor; simpl; intuition discriminate.
  - intros r Hr. simpl in Hr.
    repeat (destruct Hr as [<-|Hr]; [reflexivity|]). destruct Hr.
Defined.
